(** * Credit-risk dashboard ([model_1.py])

    A shallow embedding of the dashboard script: the column validation, the
    feature-engineering block (income-to-loan ratio, clipped risk score,
    risk-level buckets), the sidebar region filter, the risk-level filter and
    the selector of the loan-decision recommendation.

    Numbers are IEEE 754 binary64 values, as pandas holds them in a
    [float64] column and as the Python literals [0.3], [0.01], [0.7] denote
    them; their arithmetic is the one of [Stdlib.Floats.SpecFloat] at
    precision 53 and maximal exponent 1024. *)

From Stdlib Require Import ZArith Lia Bool List String Permutation.
From Stdlib Require Import Floats.SpecFloat.
Import ListNotations.

(** ** binary64 arithmetic *)

Module F64.

Definition prec : Z := 53%Z.
Definition emax : Z := 1024%Z.

Definition float64 : Set := spec_float.

Definition add : float64 -> float64 -> float64 := SFadd prec emax.
Definition mul : float64 -> float64 -> float64 := SFmul prec emax.
Definition div : float64 -> float64 -> float64 := SFdiv prec emax.

(** The comparisons of Python and numpy: every one of them is false as
    soon as an operand is NaN. *)
Definition ltb : float64 -> float64 -> bool := SFltb.
Definition leb : float64 -> float64 -> bool := SFleb.
Definition eqb : float64 -> float64 -> bool := SFeqb.
Definition gtb (x y : float64) : bool := ltb y x.
Definition geb (x y : float64) : bool := leb y x.

Definition is_nan (x : float64) : bool :=
  match x with S754_nan => true | _ => false end.

Definition is_finite (x : float64) : bool :=
  match x with S754_zero _ | S754_finite _ _ _ => true | _ => false end.

Definition is_inf (x : float64) : bool :=
  match x with S754_infinity _ => true | _ => false end.

(** A value that a binary64 word can hold: the mantissa of a finite
    number is canonical for its exponent. *)
Definition valid (x : float64) : bool := valid_binary prec emax x.

Definition nan : float64 := S754_nan.
Definition pinf : float64 := S754_infinity false.
Definition ninf : float64 := S754_infinity true.
Definition pzero : float64 := S754_zero false.
Definition nzero : float64 := S754_zero true.

(** The conversion of an integer, [float(z)]. *)
Definition of_Z (z : Z) : float64 := binary_normalize prec emax z 0%Z false.

(** The literals of the script. *)
Definition zero : float64 := pzero.
Definition one : float64 := S754_finite false 4503599627370496%positive (-52)%Z.
(* 0.3 = 0x1.3333333333333p-2 *)
Definition lit_0_3 : float64 := S754_finite false 5404319552844595%positive (-54)%Z.
(* 0.7 = 0x1.6666666666666p-1 *)
Definition lit_0_7 : float64 := S754_finite false 6305039478318694%positive (-53)%Z.
(* 0.01 = 0x1.47ae147ae147bp-7 *)
Definition lit_0_01 : float64 := S754_finite false 5764607523034235%positive (-59)%Z.
(* 0.49 = 0x1.f5c28f5c28f5cp-2 *)
Definition lit_0_49 : float64 := S754_finite false 8827055269646172%positive (-54)%Z.

End F64.

Import F64.

(** ** numpy and pandas, as far as the script uses them *)

Module Np.

(** [np.clip(s, lo, hi)] on a pandas Series is [s.clip(lo, hi)]: with
    [mask = s.isna()], the elements where [mask | (s >= lo)] fails are
    replaced by [lo], then those where [mask | (s <= hi)] fails by [hi].
    This is its action on one element. *)
Definition clip (x lo hi : float64) : float64 :=
  let mask := is_nan x in
  let r := if mask || geb x lo then x else lo in
  if mask || leb x hi then r else hi.

(** [bins.searchsorted(x, side="left")] on an increasing array: the number
    of leading bins that are strictly below [x]. *)
Fixpoint searchsorted_left (bins : list float64) (x : float64) : nat :=
  match bins with
  | [] => O
  | b :: bins' => if ltb b x then S (searchsorted_left bins' x) else O
  end.

End Np.

Module Pd.

(** A cell read back from a table: a number or a text. A missing cell is
    the number NaN. *)
Inductive scalar : Set :=
| Num (x : float64)
| Str (s : string).

(** The columns of a table: [float64] columns, [object] columns (text
    cells, NaN where the file had none) and the categorical column that
    [pd.cut] builds (a label, or NaN for a value outside every bin). An
    [int64] column of the file enters every expression of the script
    through its conversion to [float64] and is held as such. *)
Inductive column : Set :=
| Float64 (xs : list float64)
| Object (xs : list scalar)
| Category (xs : list (option string)).

Definition cells (c : column) : list scalar :=
  match c with
  | Float64 xs => map Num xs
  | Object xs => xs
  | Category xs =>
      map (fun l => match l with Some s => Str s | None => Num nan end) xs
  end.

Definition size (c : column) : nat := List.length (cells c).

(** A DataFrame: the row labels and the named columns, in their order. *)
Record DataFrame : Set := mkDataFrame {
  index : list nat;
  columns : list (string * column)
}.

Definition column_names (df : DataFrame) : list string :=
  map fst (columns df).

(** Every column has one cell per row label. *)
Definition wf (df : DataFrame) : Prop :=
  Forall (fun nc => size (snd nc) = List.length (index df)) (columns df).

(** The exceptions of the script: a missing column, a missing row
    label, an operation on a text cell, a value that a list lacks. *)
Inductive exn : Set :=
| KeyError (key : string)
| LabelError (label : nat)
| TypeError
| ValueError.

Inductive result (A : Type) : Type :=
| Ok (a : A)
| Raise (e : exn).
Arguments Ok {A} a.
Arguments Raise {A} e.

Definition bind {A B : Type} (r : result A) (k : A -> result B) : result B :=
  match r with
  | Ok a => k a
  | Raise e => Raise e
  end.

(** The first entry of that name, among named columns or named cells. *)
Fixpoint lookup {A : Type} (name : string) (l : list (string * A))
  : option A :=
  match l with
  | [] => None
  | (n, a) :: l' => if String.eqb n name then Some a else lookup name l'
  end.

(** [df[name]] *)
Definition getitem (df : DataFrame) (name : string) : result column :=
  match lookup name (columns df) with
  | Some c => Ok c
  | None => Raise (KeyError name)
  end.

Fixpoint assign (name : string) (c : column) (cols : list (string * column))
  : list (string * column) :=
  match cols with
  | [] => [(name, c)]
  | (n, c') :: cols' =>
      if String.eqb n name then (n, c) :: cols'
      else (n, c') :: assign name c cols'
  end.

(** [df[name] = c]: the column is replaced where the name exists and
    appended after the others where it does not. *)
Definition setitem (df : DataFrame) (name : string) (c : column)
  : DataFrame :=
  mkDataFrame (index df) (assign name c (columns df)).

(** Arithmetic of a Series is defined on the numeric columns; a text
    cell makes Python raise [TypeError]. *)
Definition numeric (c : column) : result (list float64) :=
  match c with
  | Float64 xs => Ok xs
  | _ => Raise TypeError
  end.

Fixpoint zip_with {A B C : Type} (f : A -> B -> C) (xs : list A)
  (ys : list B) : list C :=
  match xs, ys with
  | x :: xs', y :: ys' => f x y :: zip_with f xs' ys'
  | _, _ => []
  end.

(** [a / b], [a + b] on two Series of one table, [a * k] with a number. *)
Definition truediv (a b : column) : result column :=
  bind (numeric a) (fun xs =>
  bind (numeric b) (fun ys =>
  Ok (Float64 (zip_with div xs ys)))).

Definition series_add (a b : column) : result column :=
  bind (numeric a) (fun xs =>
  bind (numeric b) (fun ys =>
  Ok (Float64 (zip_with add xs ys)))).

Definition series_mul (a : column) (k : float64) : result column :=
  bind (numeric a) (fun xs => Ok (Float64 (map (fun x => mul x k) xs))).

Definition series_clip (a : column) (lo hi : float64) : result column :=
  bind (numeric a) (fun xs => Ok (Float64 (map (fun x => Np.clip x lo hi) xs))).

(** [pd.cut(x, bins, labels)] on one element, with the defaults
    [right=True] and [include_lowest=False]: the bins are the intervals
    open on the left and closed on the right between consecutive edges;
    NaN and every value outside them get no label. *)
Definition cut1 (bins : list float64) (labels : list string) (x : float64)
  : option string :=
  let ids := Np.searchsorted_left bins x in
  if is_nan x || Nat.eqb ids (List.length bins) || Nat.eqb ids 0 then None
  else nth_error labels (ids - 1).

Definition cut (a : column) (bins : list float64) (labels : list string)
  : result column :=
  bind (numeric a) (fun xs => Ok (Category (map (cut1 bins labels) xs))).

End Pd.

Import Pd.

Module PdRows.

(** Boolean-mask selection, [xs[mask]]. *)
Fixpoint select {A : Type} (mask : list bool) (xs : list A) : list A :=
  match mask, xs with
  | b :: mask', x :: xs' =>
      if b then x :: select mask' xs' else select mask' xs'
  | _, _ => []
  end.

Definition select_column (mask : list bool) (c : column) : column :=
  match c with
  | Float64 xs => Float64 (select mask xs)
  | Object xs => Object (select mask xs)
  | Category xs => Category (select mask xs)
  end.

(** [df[mask]]: the rows where the mask holds, with their labels. *)
Definition select_rows (mask : list bool) (df : DataFrame) : DataFrame :=
  mkDataFrame (select mask (index df))
    (map (fun nc => (fst nc, select_column mask (snd nc))) (columns df)).

(** Equality of the hash table behind [isin]: NaN matches NaN, and a
    text never matches a number. *)
Definition scalar_eqb (a b : scalar) : bool :=
  match a, b with
  | Num x, Num y => eqb x y || (is_nan x && is_nan y)
  | Str s, Str t => String.eqb s t
  | _, _ => false
  end.

(** [c.isin(values)] *)
Definition isin (c : column) (values : list scalar) : list bool :=
  map (fun v => existsb (scalar_eqb v) values) (cells c).

(** [c == label] on the categorical column: NaN equals no label. *)
Definition eq_label (c : column) (label : string) : list bool :=
  map (fun v => match v with Str s => String.eqb s label | Num _ => false end)
    (cells c).

(** The rows of a table, each with its label and its named cells. *)
Definition heads (cols : list (string * list scalar))
  : list (string * scalar) :=
  map (fun nc => (fst nc, hd (Num nan) (snd nc))) cols.

Definition tails (cols : list (string * list scalar))
  : list (string * list scalar) :=
  map (fun nc => (fst nc, tl (snd nc))) cols.

Definition row : Set := (nat * list (string * scalar))%type.

Fixpoint rows_of (idx : list nat) (cols : list (string * list scalar))
  : list row :=
  match idx with
  | [] => []
  | l :: idx' => (l, heads cols) :: rows_of idx' (tails cols)
  end.

Definition rows (df : DataFrame) : list row :=
  rows_of (index df) (map (fun nc => (fst nc, cells (snd nc))) (columns df)).

(** [r[name]] on a row. *)
Definition field (name : string) (r : list (string * scalar)) : option scalar :=
  lookup name r.

(** [df[name].iloc[i]] *)
Definition cell (df : DataFrame) (name : string) (i : nat) : option scalar :=
  match lookup name (columns df) with
  | Some c => nth_error (cells c) i
  | None => None
  end.

(** [df.loc[label]]: the first row that carries the label. *)
Definition loc (df : DataFrame) (label : nat) : option row :=
  find (fun r => Nat.eqb (fst r) label) (rows df).

End PdRows.

Import PdRows.

Module PdSort.

(** The order of [sort_values(ascending=False)]: greater scores first,
    NaN after every number. *)
Definition precedes (x y : float64) : bool :=
  if is_nan x then false else if is_nan y then true else gtb x y.

Fixpoint insert_desc (p : nat * float64) (l : list (nat * float64))
  : list (nat * float64) :=
  match l with
  | [] => [p]
  | q :: l' =>
      if precedes (snd q) (snd p) then q :: insert_desc p l' else p :: l
  end.

(** The positions of the elements in decreasing order. pandas leaves
    the order among equal scores to its sorting routine; here they keep
    their order, and no statement below depends on that choice. *)
Definition argsort_desc (xs : list float64) : list nat :=
  map fst (fold_right insert_desc [] (combine (seq 0 (List.length xs)) xs)).

Definition take_column (ps : list nat) (c : column) : column :=
  match c with
  | Float64 xs => Float64 (map (fun p => nth p xs nan) ps)
  | Object xs => Object (map (fun p => nth p xs (Num nan)) ps)
  | Category xs => Category (map (fun p => nth p xs None) ps)
  end.

(** The rows at the given positions, in that order. *)
Definition take (ps : list nat) (df : DataFrame) : DataFrame :=
  mkDataFrame (map (fun p => nth p (index df) O) ps)
    (map (fun nc => (fst nc, take_column ps (snd nc))) (columns df)).

(** [df.sort_values(by=name, ascending=False)] *)
Definition sort_values_desc (df : DataFrame) (name : string)
  : result DataFrame :=
  bind (getitem df name) (fun c =>
  bind (numeric c) (fun xs =>
  Ok (take (argsort_desc xs) df))).

Definition head_column (n : nat) (c : column) : column :=
  match c with
  | Float64 xs => Float64 (firstn n xs)
  | Object xs => Object (firstn n xs)
  | Category xs => Category (firstn n xs)
  end.

(** [df.head(n)] *)
Definition head (n : nat) (df : DataFrame) : DataFrame :=
  mkDataFrame (firstn n (index df))
    (map (fun nc => (fst nc, head_column n (snd nc))) (columns df)).

End PdSort.

Import PdSort.

(** ** The widgets and messages of the page *)

Module St.

Inductive event : Set :=
| error (body : string)
| warning (body : string)
| selectbox (label : string) (options : list nat) (position : nat)
| info (selected_index : nat) (risk_level risk_score : scalar)
    (recommendation : string).

(** What a select box returns: the option the user picked, and the
    default option as long as the user picked none. *)
Definition selectbox_value (options : list nat) (position : nat)
  (picked : option nat) : option nat :=
  match picked with
  | Some p => if Nat.ltb p (List.length options) then nth_error options p
              else nth_error options position
  | None => nth_error options position
  end.

End St.

(** ** The script *)

Definition required_columns : list string :=
  ["gender"; "age"; "income"; "loan_amount"; "occupation"; "loan_history";
   "region"]%string.

(** Column validation:
    [missing_cols = [col for col in required_columns if col not in df.columns]] *)
Definition missing_cols (df : DataFrame) : list string :=
  filter (fun col => negb (existsb (String.eqb col) (column_names df)))
    required_columns.

Definition missing_message (missing : list string) : string :=
  ("Missing required columns: " ++ String.concat ", " missing)%string.

Definition bins : list float64 := [zero; lit_0_3; lit_0_7; one].
Definition labels : list string := ["Low"; "Medium"; "High"]%string.

(** Feature engineering: the three assignments of the [try] block. *)
Definition feature_engineering (df : DataFrame) : result DataFrame :=
  bind (getitem df "income") (fun income =>
  bind (getitem df "loan_amount") (fun loan_amount =>
  bind (truediv income loan_amount) (fun ratio =>
  let df1 := setitem df "income_to_loan_ratio" ratio in
  bind (getitem df1 "income_to_loan_ratio") (fun ratio' =>
  bind (series_mul ratio' lit_0_3) (fun weighted =>
  bind (getitem df1 "age") (fun age =>
  bind (series_mul age lit_0_01) (fun aged =>
  bind (series_add weighted aged) (fun linear =>
  bind (series_clip linear zero one) (fun score =>
  let df2 := setitem df1 "risk_score" score in
  bind (getitem df2 "risk_score") (fun score' =>
  bind (cut score' bins labels) (fun level =>
  Ok (setitem df2 "risk_level" level)))))))))))).

(** The sidebar filter: the table is narrowed only when the selection is
    not empty. *)
Definition region_filter (selected_regions : list scalar) (df : DataFrame)
  : result DataFrame :=
  bind (getitem df "region") (fun region =>
  match selected_regions with
  | [] => Ok df
  | _ :: _ => Ok (select_rows (isin region selected_regions) df)
  end).

(** The risk-level filter of the right-hand table; the table [df] itself
    is left as it is. *)
Definition level_filter (selected_level : string) (df : DataFrame)
  : result DataFrame :=
  if String.eqb selected_level "All" then Ok df
  else bind (getitem df "risk_level") (fun level =>
       Ok (select_rows (eq_label level selected_level) df)).

(** What the file upload and [pd.read_csv] hand over. *)
Inductive loaded : Set :=
| Loaded (df : DataFrame)
| LoadFailed (reason : string).

(** How far the script gets: [st.stop()] after a reported error, an
    exception that nothing catches, or the table that the page shows. *)
Inductive outcome : Set :=
| Stopped (log : list St.event)
| Uncaught (e : exn)
| Shown (df : DataFrame).

(** From the loaded file to the table the charts are drawn from. *)
Definition prepare (input : loaded) (selected_regions : list scalar)
  : outcome :=
  match input with
  | LoadFailed reason =>
      Stopped [St.error ("Error loading data: " ++ reason)%string]
  | Loaded df =>
      match missing_cols df with
      | (_ :: _) as missing => Stopped [St.error (missing_message missing)]
      | [] =>
          match feature_engineering df with
          | Raise (KeyError key) =>
              Stopped [St.error
                ("Feature engineering failed due to missing columns: '"
                 ++ key ++ "'")%string]
          | Raise e => Uncaught e
          | Ok df' =>
              match region_filter selected_regions df' with
              | Raise e => Uncaught e
              | Ok df'' => Shown df''
              end
          end
      end
  end.

(** [select_options.index(x)] *)
Fixpoint first_position (x : nat) (l : list nat) : option nat :=
  match l with
  | [] => None
  | y :: l' =>
      if Nat.eqb y x then Some O
      else match first_position x l' with
           | Some p => Some (S p)
           | None => None
           end
  end.

Definition no_high_risk_warning : string :=
  "No high-risk borrowers available in the current filter. Showing first borrower instead.".

Definition no_borrowers_error : string :=
  "No borrowers available to review. Please adjust your filters.".

(** ["Review manually" if borrower["risk_level"] == "High" else "Likely Approve"] *)
Definition recommend (risk_level : scalar) : string :=
  match risk_level with
  | Str s => if String.eqb s "High" then "Review manually" else "Likely Approve"
  | Num _ => "Likely Approve"
  end.

Definition row_field (r : row) (name : string) : result scalar :=
  match field name (snd r) with
  | Some v => Ok v
  | None => Raise (KeyError name)
  end.

(** The default position of the review selector and the messages of the
    three branches that choose it. *)
Definition default_review_position (top_indices select_options : list nat)
  : list St.event * option nat :=
  if match top_indices with
     | t :: _ => existsb (Nat.eqb t) select_options
     | [] => false
     end
  then ([], first_position (hd O top_indices) select_options)
  else match select_options with
       | _ :: _ => ([St.warning no_high_risk_warning], Some O)
       | [] => ([St.error no_borrowers_error], None)
       end.

(** The "Loan Decision Recommendation" block: what it puts on the page
    for the table [df], [picked] being the position the user chose in the
    select box, if any. *)
Definition recommendation_selector (df : DataFrame) (picked : option nat)
  : result (list St.event) :=
  bind (sort_values_desc df "risk_score") (fun sorted =>
  let top_indices := index (head 5 sorted) in
  let select_options := index df in
  let '(log, default_position) :=
    default_review_position top_indices select_options in
  match select_options, default_position with
  | _ :: _, Some position =>
      match St.selectbox_value select_options position picked with
      | None => Raise ValueError
      | Some selected_index =>
          match loc df selected_index with
          | None => Raise (LabelError selected_index)
          | Some borrower =>
              bind (row_field borrower "risk_level") (fun level =>
              bind (row_field borrower "risk_score") (fun score =>
              Ok (log ++ [St.selectbox "Select borrower for review"
                            select_options position;
                          St.info selected_index level score
                            (recommend level)])))
          end
      end
  | _, _ => Ok log
  end).

(** The feature-engineering block read on one row. *)
Definition ratio_of (income loan_amount : float64) : float64 :=
  div income loan_amount.

Definition linear_of (ratio age : float64) : float64 :=
  add (mul ratio lit_0_3) (mul age lit_0_01).

Definition score_of (ratio age : float64) : float64 :=
  Np.clip (linear_of ratio age) zero one.

Definition level_of (score : float64) : option string :=
  cut1 bins labels score.

Definition level_cell (level : option string) : scalar :=
  match level with
  | Some s => Str s
  | None => Num nan
  end.

(** The three derived columns, and the table with the three assignments
    done. *)
Definition ratio_column (income loan_amount : list float64) : list float64 :=
  zip_with div income loan_amount.

Definition score_column (ratio age : list float64) : list float64 :=
  map (fun x => Np.clip x zero one)
    (zip_with add (map (fun r => mul r lit_0_3) ratio)
       (map (fun a => mul a lit_0_01) age)).

Definition derived (df : DataFrame) (income loan_amount age : list float64)
  : DataFrame :=
  let ratio := ratio_column income loan_amount in
  let score := score_column ratio age in
  setitem
    (setitem (setitem df "income_to_loan_ratio" (Float64 ratio))
       "risk_score" (Float64 score))
    "risk_level" (Category (map (cut1 bins labels) score)).

(** What the block writes in row [i] from the three inputs of that row. *)
Definition row_derivation (df df' : DataFrame) (i : nat)
  (income loan_amount age : float64) : Prop :=
  cell df "income" i = Some (Num income) /\
  cell df "loan_amount" i = Some (Num loan_amount) /\
  cell df "age" i = Some (Num age) /\
  cell df' "income_to_loan_ratio" i =
    Some (Num (ratio_of income loan_amount)) /\
  cell df' "risk_score" i =
    Some (Num (score_of (ratio_of income loan_amount) age)) /\
  cell df' "risk_level" i =
    Some (level_cell (level_of (score_of (ratio_of income loan_amount) age))).

(** The columns of a table as named lists of cells, all of one length. *)
Definition cell_columns (df : DataFrame) : list (string * list scalar) :=
  map (fun nc => (fst nc, cells (snd nc))) (columns df).

Definition all_length (n : nat) (cols : list (string * list scalar)) : Prop :=
  Forall (fun nc => List.length (snd nc) = n) cols.

(** The names that the feature-engineering block assigns. *)
Definition derived_names : list string :=
  ["income_to_loan_ratio"; "risk_score"; "risk_level"]%string.

(** ** Rounding to nearest even, read on exact values

    [SpecFloat] rounds a mantissa, an exponent and a location (what was
    shifted out so far). Here the same rounding is read on the exact
    value, a rational [A / D] counted in units of [2 ^ E0]; [2 ^ E0] is
    below every exponent that the operations of the script hand to
    [binary_round_aux]. *)

Module Rounding.

Local Open Scope Z_scope.

Definition E0 : Z := -2148.

(** The location of the fraction [r / D] of a quotient, [0 <= r < D]. *)
Definition loc_frac (r D : Z) : location :=
  if r =? 0 then loc_Exact else loc_Inexact (2 * r ?= D).

(** A shift record holds the quotient of [A] by [D] and the location of
    its fraction. *)
Definition represents (mrs : shr_record) (A D : Z) : Prop :=
  shr_m mrs = A / D /\ loc_of_shr_record mrs = loc_frac (A mod D) D.

(** The integer nearest to [A / D], the even one at a tie. *)
Definition rne (A D : Z) : Z :=
  let q := A / D in
  let r := A mod D in
  if r =? 0 then q
  else match 2 * r ?= D with
       | Lt => q
       | Eq => if Z.even q then q else q + 1
       | Gt => q + 1
       end.

(** The number of mantissa [mr] at exponent [t], renormalised when the
    mantissa reached [2 ^ 53] and infinite beyond the largest exponent. *)
Definition out (s : bool) (mr t : Z) : float64 :=
  match mr with
  | Z0 => S754_zero s
  | Zpos m =>
      if mr <? 2 ^ 53
      then if t <=? 971 then S754_finite s m t else S754_infinity s
      else if t + 1 <=? 971
           then S754_finite s 4503599627370496%positive (t + 1)
           else S754_infinity s
  | Zneg _ => S754_nan
  end.

(** The last steps of [binary_round_aux], after the first rounding. *)
Definition finish (s : bool) (mr t : Z) : float64 :=
  let '(mrs, e) := shr_fexp prec emax mr t loc_Exact in
  match shr_m mrs with
  | Z0 => S754_zero s
  | Zpos m => if e <=? emax - prec then S754_finite s m e else S754_infinity s
  | Zneg _ => S754_nan
  end.

(** The exponent of the binary64 numbers next to [A / D]. *)
Definition cexp (A D : Z) : Z := fexp prec emax (Zdigits2 (A / D) + E0).

(** The rounding of the positive value [A / D], with the sign [s]. *)
Definition round_pos (s : bool) (A D : Z) : float64 :=
  out s (rne A (D * 2 ^ (cexp A D - E0))) (cexp A D).

Definition fin (s : bool) (m t : Z) : float64 :=
  if t <=? 971 then S754_finite s (Z.to_pos m) t else S754_infinity s.

(** A number of sign [s], no NaN. *)
Definition signed (s : bool) (r : float64) : Prop :=
  match r with
  | S754_zero s' | S754_infinity s' | S754_finite s' _ _ => s' = s
  | S754_nan => False
  end.

(** The value of a finite number, in units of [2 ^ -1074]. *)
Definition sval (x : float64) : Z :=
  match x with
  | S754_finite s m e => cond_Zopp s (Z.pos m * 2 ^ (e + 1074))
  | _ => 0
  end.

(** The rounding of the rational [N / D], counted in units of [2 ^ E0]. *)
Definition RQ (N D : Z) : float64 :=
  match N with
  | Z0 => S754_zero false
  | Zpos _ => round_pos false N D
  | Zneg _ => round_pos true (- N) D
  end.

(** Equality up to the sign of zero. *)
Definition eqz (a b : float64) : Prop :=
  a = b \/ exists s s', a = S754_zero s /\ b = S754_zero s'.

End Rounding.

Import Rounding.

(** ** Tables for the examples *)

(** A table with the seven required columns, one row per quadruple of age,
    income, loan amount and region; the labels are the positions, as
    [pd.read_csv] numbers the rows. *)
Definition borrowers (l : list (float64 * float64 * float64 * string))
  : DataFrame :=
  mkDataFrame (seq 0 (List.length l))
    [("gender"%string, Object (map (fun _ => Str "F") l));
     ("age"%string, Float64 (map (fun r => fst (fst (fst r))) l));
     ("income"%string, Float64 (map (fun r => snd (fst (fst r))) l));
     ("loan_amount"%string, Float64 (map (fun r => snd (fst r)) l));
     ("occupation"%string, Object (map (fun _ => Str "Trader") l));
     ("loan_history"%string, Object (map (fun _ => Str "None") l));
     ("region"%string, Object (map (fun r => Str (snd r)) l))].

(** Whether the region of a row is one of the selected regions. *)
Definition region_in (selected_regions : list scalar) (r : row) : bool :=
  match field "region" (snd r) with
  | Some v => existsb (scalar_eqb v) selected_regions
  | None => false
  end.

(** The table after feature engineering, where the block succeeds. *)
Definition engineered (df : DataFrame) : DataFrame :=
  match feature_engineering df with
  | Ok df' => df'
  | Raise _ => df
  end.

(** ** The rest of the page *)

(** [c.unique()]: the cells in the order of their first occurrence, each
    once under the equality of the hash table. *)
Fixpoint unique_cells (seen xs : list scalar) : list scalar :=
  match xs with
  | [] => []
  | x :: xs' =>
      if existsb (scalar_eqb x) seen then unique_cells seen xs'
      else x :: unique_cells (x :: seen) xs'
  end.

Definition unique (c : column) : list scalar := unique_cells [] (cells c).

(** The options of the sidebar filter, [df["region"].unique()]. *)
Definition region_options (df : DataFrame) : result (list scalar) :=
  bind (getitem df "region") (fun region => Ok (unique region)).

(** [top_risk = df.sort_values(by="risk_score", ascending=False).head(10)] *)
Definition top_risk (df : DataFrame) : result DataFrame :=
  bind (sort_values_desc df "risk_score") (fun sorted => Ok (head 10 sorted)).

(** The "Top 10 High-Risk Borrowers" block: the label chosen in the
    select box, which opens on its first option, the risk level of that
    borrower and the recommended action. Without options the select box
    returns [None], which is no label of the table. *)
Definition top_risk_review (df : DataFrame) (picked : option nat)
  : result (nat * scalar * string) :=
  bind (top_risk df) (fun top =>
  match St.selectbox_value (index top) O picked with
  | None => Raise (KeyError "None")
  | Some selected_index =>
      match loc df selected_index with
      | None => Raise (LabelError selected_index)
      | Some borrower =>
          bind (row_field borrower "risk_level") (fun level =>
          Ok (selected_index, level, recommend level))
      end
  end).

(** The metrics of the summary: [len(df)] and
    [df[df["risk_level"] == "High"].shape[0]]. *)
Definition total_borrowers (df : DataFrame) : nat := List.length (index df).

Definition high_risk_borrowers (df : DataFrame) : result nat :=
  bind (getitem df "risk_level") (fun level =>
  Ok (List.length (index (select_rows (eq_label level "High") df)))).

(** The row at a position of the table. *)
Definition row_at (df : DataFrame) (i : nat) : row :=
  (nth i (index df) O,
   map (fun nc => (fst nc, nth i (cells (snd nc)) (Num nan))) (columns df)).

(** Whether the risk level of a row is the given label, and whether the
    row has no label at all. *)
Definition level_is (label : string) (r : row) : bool :=
  match field "risk_level" (snd r) with
  | Some (Str s) => String.eqb s label
  | _ => false
  end.

Definition unlabelled (r : row) : bool :=
  match field "risk_level" (snd r) with
  | Some (Num _) => true
  | _ => false
  end.

(** A score that [np.clip] can return: NaN, or a number of [0, 1]. *)
Definition clipped (s : float64) : Prop :=
  is_nan s = true \/ (leb zero s = true /\ leb s one = true).

(** The later of two scores does not belong before the earlier one:
    it is NaN, or it is not greater. *)
Definition not_before (x y : float64) : Prop :=
  is_nan y = true \/ leb y x = true.

(** * Properties *)

(** ** The order of binary64 *)

Ltac fold_pos_compare :=
  repeat match goal with
  | |- context [Pos.compare_cont Eq ?p ?q] =>
      change (Pos.compare_cont Eq p q) with (Pos.compare p q)
  end.

(* The finite cases of a transitivity: the exponents, then the mantissas. *)
Ltac lex_cases ex ey ez mx my mz :=
  fold_pos_compare;
  destruct (Z.compare_spec ex ey); destruct (Z.compare_spec ey ez);
  destruct (Z.compare_spec ex ez);
  try discriminate; try reflexivity; try lia; subst;
  destruct (Pos.compare_spec mx my); destruct (Pos.compare_spec my mz);
  destruct (Pos.compare_spec mx mz);
  simpl; try discriminate; try reflexivity; try lia.

Section Order.

Lemma compare_antisym (x y : float64) (c : comparison) :
  SFcompare x y = Some c -> SFcompare y x = Some (CompOpp c).
Proof.
  destruct x as [sx|sx| |sx mx ex], y as [sy|sy| |sy my ey]; simpl;
    try discriminate;
    try (destruct sx); try (destruct sy); simpl;
    try (intros [= <-]; reflexivity).
  - change (Pos.compare_cont Eq my mx) with (Pos.compare my mx).
    change (Pos.compare_cont Eq mx my) with (Pos.compare mx my).
    rewrite (Z.compare_antisym ex ey), (Pos.compare_antisym mx my).
    destruct (ex ?= ey)%Z; simpl; intros [= <-]; reflexivity.
  - change (Pos.compare_cont Eq my mx) with (Pos.compare my mx).
    change (Pos.compare_cont Eq mx my) with (Pos.compare mx my).
    rewrite (Z.compare_antisym ex ey), (Pos.compare_antisym mx my).
    destruct (ex ?= ey)%Z; simpl; intros [= <-]; reflexivity.
Qed.

Lemma compare_nan_iff (x y : float64) :
  SFcompare x y = None <-> is_nan x = true \/ is_nan y = true.
Proof.
  destruct x as [sx|sx| |sx mx ex], y as [sy|sy| |sy my ey]; simpl;
    intuition discriminate.
Qed.

Lemma ltb_not_nan (x y : float64) :
  ltb x y = true -> is_nan x = false /\ is_nan y = false.
Proof.
  unfold ltb, SFltb.
  destruct x as [sx|sx| |sx mx ex], y as [sy|sy| |sy my ey]; simpl;
    intuition discriminate.
Qed.

Lemma leb_not_nan (x y : float64) :
  leb x y = true -> is_nan x = false /\ is_nan y = false.
Proof.
  unfold leb, SFleb.
  destruct x as [sx|sx| |sx mx ex], y as [sy|sy| |sy my ey]; simpl;
    intuition discriminate.
Qed.

(** On numbers the order is total: [x <= y] fails exactly when [y < x]. *)
Lemma leb_negb_ltb (x y : float64) :
  is_nan x = false -> is_nan y = false -> leb x y = negb (ltb y x).
Proof.
  intros Hx Hy. unfold leb, ltb, SFleb, SFltb.
  destruct (SFcompare x y) as [c|] eqn:E.
  - rewrite (compare_antisym _ _ _ E). destruct c; reflexivity.
  - apply compare_nan_iff in E. destruct E; congruence.
Qed.

Lemma ltb_leb (x y : float64) : ltb x y = true -> leb x y = true.
Proof.
  unfold ltb, leb, SFltb, SFleb. destruct (SFcompare x y) as [[]|]; congruence.
Qed.

Lemma ltb_irrefl_leb (x y : float64) :
  ltb x y = true -> leb y x = false.
Proof.
  intros H. destruct (ltb_not_nan _ _ H) as [Hx Hy].
  rewrite (leb_negb_ltb y x Hy Hx), H. reflexivity.
Qed.

Lemma ltb_trans (x y z : float64) :
  ltb x y = true -> ltb y z = true -> ltb x z = true.
Proof.
  unfold ltb, SFltb.
  destruct x as [sx|sx| |sx mx ex], y as [sy|sy| |sy my ey],
    z as [sz|sz| |sz mz ez]; simpl;
    try discriminate;
    try (destruct sx); try (destruct sy); try (destruct sz); simpl;
    try discriminate; try reflexivity;
    lex_cases ex ey ez mx my mz.
Qed.

Lemma leb_ltb_trans (x y z : float64) :
  leb x y = true -> ltb y z = true -> ltb x z = true.
Proof.
  unfold leb, ltb, SFleb, SFltb.
  destruct x as [sx|sx| |sx mx ex], y as [sy|sy| |sy my ey],
    z as [sz|sz| |sz mz ez]; simpl;
    try discriminate;
    try (destruct sx); try (destruct sy); try (destruct sz); simpl;
    try discriminate; try reflexivity;
    lex_cases ex ey ez mx my mz.
Qed.

End Order.

(** ** Columns and cells *)

Section Columns.

Lemma lookup_assign_same (name : string) (c : column)
  (cols : list (string * column)) :
  lookup name (assign name c cols) = Some c.
Proof.
  induction cols as [|[n c'] cols IH]; simpl.
  - rewrite String.eqb_refl. reflexivity.
  - destruct (String.eqb n name) eqn:E; simpl; rewrite E; auto.
Qed.

Lemma lookup_assign_other (name other : string) (c : column)
  (cols : list (string * column)) :
  String.eqb name other = false ->
  lookup other (assign name c cols) = lookup other cols.
Proof.
  intros Hne. induction cols as [|[n c'] cols IH]; simpl.
  - rewrite Hne. reflexivity.
  - destruct (String.eqb n name) eqn:E; simpl.
    + apply String.eqb_eq in E. subst n. rewrite Hne. reflexivity.
    + destruct (String.eqb n other); auto.
Qed.

Lemma nth_error_zip_with {A B C : Type} (f : A -> B -> C) (xs : list A)
  (ys : list B) (i : nat) :
  nth_error (zip_with f xs ys) i =
  match nth_error xs i, nth_error ys i with
  | Some x, Some y => Some (f x y)
  | _, _ => None
  end.
Proof.
  revert ys i. induction xs as [|x xs IH]; intros [|y ys] [|i]; simpl; auto.
  - destruct (nth_error xs i); reflexivity.
Qed.

Lemma length_zip_with {A B C : Type} (f : A -> B -> C) (xs : list A)
  (ys : list B) :
  List.length (zip_with f xs ys) = Nat.min (List.length xs) (List.length ys).
Proof.
  revert ys. induction xs as [|x xs IH]; intros [|y ys]; simpl; auto.
Qed.

Lemma cell_float (df : DataFrame) (name : string) (xs : list float64)
  (i : nat) :
  lookup name (columns df) = Some (Float64 xs) ->
  cell df name i = option_map Num (nth_error xs i).
Proof.
  intros H. unfold cell. rewrite H. simpl. apply nth_error_map.
Qed.

End Columns.

(** ** Feature engineering, column by column and row by row *)

Section FeatureEngineering.

(** The block succeeds exactly on the tables whose three inputs are
    numeric columns, and then yields the table with the three
    assignments done. *)
Lemma feature_engineering_inv (df df' : DataFrame) :
  feature_engineering df = Ok df' ->
  exists income loan_amount age,
    lookup "income" (columns df) = Some (Float64 income) /\
    lookup "loan_amount" (columns df) = Some (Float64 loan_amount) /\
    lookup "age" (columns df) = Some (Float64 age) /\
    df' = derived df income loan_amount age.
Proof.
  unfold feature_engineering, getitem.
  destruct (lookup "income" (columns df)) as [income|] eqn:Hi;
    simpl; try discriminate.
  destruct (lookup "loan_amount" (columns df)) as [loan|] eqn:Hl;
    simpl; try discriminate.
  destruct income as [income| |], loan as [loan| |]; simpl;
    try discriminate.
  rewrite lookup_assign_same. simpl.
  rewrite (lookup_assign_other "income_to_loan_ratio" "age") by reflexivity.
  destruct (lookup "age" (columns df)) as [[age| |]|] eqn:Ha;
    simpl; try discriminate.
  rewrite lookup_assign_same. simpl.
  intros [= <-]. exists income, loan, age. repeat split; reflexivity.
Qed.

Lemma feature_engineering_complete (df : DataFrame)
  (income loan_amount age : list float64) :
  lookup "income" (columns df) = Some (Float64 income) ->
  lookup "loan_amount" (columns df) = Some (Float64 loan_amount) ->
  lookup "age" (columns df) = Some (Float64 age) ->
  feature_engineering df = Ok (derived df income loan_amount age).
Proof.
  intros Hi Hl Ha. unfold feature_engineering, getitem.
  rewrite Hi, Hl. simpl. rewrite lookup_assign_same. simpl.
  rewrite (lookup_assign_other "income_to_loan_ratio" "age") by reflexivity.
  rewrite Ha. simpl. rewrite lookup_assign_same. simpl. reflexivity.
Qed.

End FeatureEngineering.

Section Rows.

Lemma nth_error_ratio_column (income loan_amount : list float64) (i : nat) :
  nth_error (ratio_column income loan_amount) i =
  match nth_error income i, nth_error loan_amount i with
  | Some x, Some y => Some (ratio_of x y)
  | _, _ => None
  end.
Proof. apply nth_error_zip_with. Qed.

Lemma nth_error_score_column (ratio age : list float64) (i : nat) :
  nth_error (score_column ratio age) i =
  match nth_error ratio i, nth_error age i with
  | Some r, Some a => Some (score_of r a)
  | _, _ => None
  end.
Proof.
  unfold score_column.
  rewrite nth_error_map, nth_error_zip_with, !nth_error_map.
  destruct (nth_error ratio i), (nth_error age i); reflexivity.
Qed.

Lemma derived_cells (df : DataFrame) (income loan_amount age : list float64)
  (i : nat) :
  let df' := derived df income loan_amount age in
  let ratio := ratio_column income loan_amount in
  let score := score_column ratio age in
  cell df' "income_to_loan_ratio" i = option_map Num (nth_error ratio i) /\
  cell df' "risk_score" i = option_map Num (nth_error score i) /\
  cell df' "risk_level" i =
    option_map (fun s => level_cell (level_of s)) (nth_error score i).
Proof.
  unfold derived, cell, setitem; simpl. repeat split.
  - rewrite (lookup_assign_other "risk_level" "income_to_loan_ratio")
      by reflexivity.
    rewrite (lookup_assign_other "risk_score" "income_to_loan_ratio")
      by reflexivity.
    rewrite lookup_assign_same. simpl. apply nth_error_map.
  - rewrite (lookup_assign_other "risk_level" "risk_score") by reflexivity.
    rewrite lookup_assign_same. simpl. apply nth_error_map.
  - rewrite lookup_assign_same. simpl. rewrite !nth_error_map.
    destruct (nth_error _ i); reflexivity.
Qed.

(** Every row that has its three inputs gets the three derived cells. *)
Lemma feature_engineering_row (df df' : DataFrame) (i : nat)
  (income loan_amount age : float64) :
  feature_engineering df = Ok df' ->
  cell df "income" i = Some (Num income) ->
  cell df "loan_amount" i = Some (Num loan_amount) ->
  cell df "age" i = Some (Num age) ->
  row_derivation df df' i income loan_amount age.
Proof.
  intros H Hi Hl Ha.
  destruct (feature_engineering_inv _ _ H) as (incs & ls & ags & Li & Ll & La & ->).
  rewrite (cell_float _ _ _ _ Li) in Hi.
  rewrite (cell_float _ _ _ _ Ll) in Hl.
  rewrite (cell_float _ _ _ _ La) in Ha.
  destruct (nth_error incs i) as [x|] eqn:Ex; [|discriminate].
  destruct (nth_error ls i) as [y|] eqn:Ey; [|discriminate].
  destruct (nth_error ags i) as [a|] eqn:Ea; [|discriminate].
  simpl in Hi, Hl, Ha.
  injection Hi as ->. injection Hl as ->. injection Ha as ->.
  destruct (derived_cells df incs ls ags i) as (Hr & Hs & Hv).
  unfold row_derivation.
  rewrite (cell_float _ _ _ _ Li), (cell_float _ _ _ _ Ll),
    (cell_float _ _ _ _ La), Ex, Ey, Ea, Hr, Hs, Hv.
  rewrite nth_error_score_column, nth_error_ratio_column, Ex, Ey, Ea.
  simpl. repeat split; reflexivity.
Qed.

(** Every risk score of the derived table comes from a row of the
    loaded one. *)
Lemma feature_engineering_score_row (df df' : DataFrame) (i : nat)
  (v : scalar) :
  feature_engineering df = Ok df' ->
  cell df' "risk_score" i = Some v ->
  exists income loan_amount age,
    row_derivation df df' i income loan_amount age.
Proof.
  intros H Hv.
  destruct (feature_engineering_inv _ _ H) as (incs & ls & ags & Li & Ll & La & E).
  subst df'.
  destruct (derived_cells df incs ls ags i) as (_ & Hs & _).
  rewrite Hs, nth_error_score_column, nth_error_ratio_column in Hv.
  destruct (nth_error incs i) as [x|] eqn:Ex; [|discriminate].
  destruct (nth_error ls i) as [y|] eqn:Ey; [|discriminate].
  destruct (nth_error ags i) as [a|] eqn:Ea; [|discriminate].
  exists x, y, a.
  apply feature_engineering_row; trivial;
    erewrite cell_float by eassumption;
    rewrite ?Ex, ?Ey, ?Ea; reflexivity.
Qed.

End Rows.

(** ** Clipping and bucketing of one score *)

Section Buckets.

Lemma zero_lt_lit_0_3 : ltb zero lit_0_3 = true.
Proof. reflexivity. Qed.

Lemma lit_0_3_lt_lit_0_7 : ltb lit_0_3 lit_0_7 = true.
Proof. reflexivity. Qed.

Lemma lit_0_7_lt_one : ltb lit_0_7 one = true.
Proof. reflexivity. Qed.

(** The literals are the binary64 values nearest to the decimals. *)
Lemma literals_nearest :
  lit_0_3 = div (of_Z 3) (of_Z 10) /\
  lit_0_7 = div (of_Z 7) (of_Z 10) /\
  lit_0_01 = div (of_Z 1) (of_Z 100) /\
  lit_0_49 = div (of_Z 49) (of_Z 100) /\
  one = of_Z 1 /\ zero = of_Z 0.
Proof. vm_compute. repeat split; reflexivity. Qed.

(** A clipped number lies between the bounds; NaN stays NaN. *)
Lemma clip_nan (x : float64) :
  is_nan x = true -> Np.clip x zero one = nan.
Proof. destruct x; simpl; try discriminate. reflexivity. Qed.

Lemma clip_is_nan (x : float64) :
  is_nan (Np.clip x zero one) = is_nan x.
Proof.
  unfold Np.clip. destruct (is_nan x) eqn:E; simpl; [exact E|].
  destruct (leb x one); [destruct (geb x zero)|]; simpl; auto.
Qed.

Lemma clip_bounds (x : float64) :
  is_nan x = false ->
  leb zero (Np.clip x zero one) = true /\ leb (Np.clip x zero one) one = true.
Proof.
  intros Hx. unfold Np.clip. rewrite Hx. simpl.
  destruct (leb x one) eqn:H1.
  - unfold geb. destruct (leb zero x) eqn:H0; auto.
  - split; reflexivity.
Qed.

Lemma clip_below (x : float64) :
  ltb x zero = true -> Np.clip x zero one = zero.
Proof.
  intros H. destruct (ltb_not_nan _ _ H) as [Hx _].
  unfold Np.clip, geb. rewrite Hx. simpl.
  rewrite (ltb_irrefl_leb _ _ H).
  rewrite (ltb_leb _ _ (ltb_trans _ _ _ H (ltb_trans _ _ _ zero_lt_lit_0_3
    (ltb_trans _ _ _ lit_0_3_lt_lit_0_7 lit_0_7_lt_one)))).
  reflexivity.
Qed.

Lemma clip_above (x : float64) :
  ltb one x = true -> Np.clip x zero one = one.
Proof.
  intros H. destruct (ltb_not_nan _ _ H) as [_ Hx].
  unfold Np.clip. rewrite Hx. simpl.
  rewrite (ltb_irrefl_leb _ _ H). reflexivity.
Qed.

(** The bins of [level_of]: (0, 0.3], (0.3, 0.7] and (0.7, 1]. *)
Lemma level_of_cases (s : float64) :
  (level_of s = Some "Low"%string /\
     ltb zero s = true /\ leb s lit_0_3 = true) \/
  (level_of s = Some "Medium"%string /\
     ltb lit_0_3 s = true /\ leb s lit_0_7 = true) \/
  (level_of s = Some "High"%string /\
     ltb lit_0_7 s = true /\ leb s one = true) \/
  (level_of s = None /\
     (is_nan s = true \/ leb s zero = true \/ ltb one s = true)).
Proof.
  unfold level_of, cut1, bins, labels. simpl.
  destruct (is_nan s) eqn:Hn; simpl.
  { right; right; right. auto. }
  assert (L : forall c, is_nan c = false -> leb s c = negb (ltb c s))
    by (intros c Hc; apply leb_negb_ltb; assumption).
  destruct (ltb zero s) eqn:H0; simpl.
  2:{ right; right; right. split; [reflexivity|].
      right; left. rewrite L, H0; reflexivity. }
  destruct (ltb lit_0_3 s) eqn:H3; simpl.
  2:{ left. rewrite L, H3; auto. }
  destruct (ltb lit_0_7 s) eqn:H7; simpl.
  2:{ right; left. rewrite L, H7; auto. }
  destruct (ltb one s) eqn:H1; simpl.
  - right; right; right. auto.
  - right; right; left. rewrite L, H1; auto.
Qed.

Lemma level_of_low (s : float64) :
  level_of s = Some "Low"%string <->
  ltb zero s = true /\ leb s lit_0_3 = true.
Proof.
  destruct (level_of_cases s) as [(E & A & B)|[(E & A & B)|[(E & A & B)|(E & A)]]];
    rewrite E; split; try tauto; try discriminate; intros [P Q].
  - rewrite (ltb_irrefl_leb _ _ A) in Q. discriminate.
  - rewrite (ltb_irrefl_leb _ _
      (ltb_trans _ _ _ lit_0_3_lt_lit_0_7 A)) in Q. discriminate.
  - destruct (ltb_not_nan _ _ P) as [_ Hn].
    destruct A as [A|[A|A]].
    + congruence.
    + rewrite (ltb_irrefl_leb _ _ P) in A. discriminate.
    + pose proof (leb_ltb_trans _ _ _ Q (ltb_trans _ _ _ lit_0_3_lt_lit_0_7
        lit_0_7_lt_one)) as C.
      apply ltb_leb in C. rewrite (ltb_irrefl_leb _ _ A) in C.
      discriminate.
Qed.

Lemma level_of_medium (s : float64) :
  level_of s = Some "Medium"%string <->
  ltb lit_0_3 s = true /\ leb s lit_0_7 = true.
Proof.
  destruct (level_of_cases s) as [(E & A & B)|[(E & A & B)|[(E & A & B)|(E & A)]]];
    rewrite E; split; try tauto; try discriminate; intros [P Q].
  - rewrite (ltb_irrefl_leb _ _ P) in B. discriminate.
  - rewrite (ltb_irrefl_leb _ _ A) in Q. discriminate.
  - destruct (ltb_not_nan _ _ P) as [_ Hn].
    pose proof (ltb_trans _ _ _ zero_lt_lit_0_3 P) as P0.
    destruct A as [A|[A|A]].
    + congruence.
    + rewrite (ltb_irrefl_leb _ _ P0) in A. discriminate.
    + pose proof (leb_ltb_trans _ _ _ Q lit_0_7_lt_one) as C.
      apply ltb_leb in C. rewrite (ltb_irrefl_leb _ _ A) in C.
      discriminate.
Qed.

Lemma level_of_high (s : float64) :
  level_of s = Some "High"%string <->
  ltb lit_0_7 s = true /\ leb s one = true.
Proof.
  destruct (level_of_cases s) as [(E & A & B)|[(E & A & B)|[(E & A & B)|(E & A)]]];
    rewrite E; split; try tauto; try discriminate; intros [P Q].
  - rewrite (ltb_irrefl_leb _ _
      (ltb_trans _ _ _ lit_0_3_lt_lit_0_7 P)) in B. discriminate.
  - rewrite (ltb_irrefl_leb _ _ P) in B. discriminate.
  - destruct (ltb_not_nan _ _ P) as [_ Hn].
    pose proof (ltb_trans _ _ _ zero_lt_lit_0_3
      (ltb_trans _ _ _ lit_0_3_lt_lit_0_7 P)) as P0.
    destruct A as [A|[A|A]].
    + congruence.
    + rewrite (ltb_irrefl_leb _ _ P0) in A. discriminate.
    + rewrite (ltb_irrefl_leb _ _ A) in Q. discriminate.
Qed.

Lemma level_of_none (s : float64) :
  level_of s = None <->
  is_nan s = true \/ leb s zero = true \/ ltb one s = true.
Proof.
  destruct (level_of_cases s) as [(E & A & B)|[(E & A & B)|[(E & A & B)|(E & A)]]];
    rewrite E; split; try tauto; try discriminate; intros H; exfalso.
  - destruct (ltb_not_nan _ _ A) as [_ Hn].
    destruct H as [H|[H|H]]; [congruence| |].
    + rewrite (ltb_irrefl_leb _ _ A) in H. discriminate.
    + pose proof (leb_ltb_trans _ _ _ B (ltb_trans _ _ _ lit_0_3_lt_lit_0_7
        lit_0_7_lt_one)) as C.
      apply ltb_leb in C. rewrite (ltb_irrefl_leb _ _ H) in C.
      discriminate.
  - destruct (ltb_not_nan _ _ A) as [_ Hn].
    destruct H as [H|[H|H]]; [congruence| |].
    + rewrite (ltb_irrefl_leb _ _ (ltb_trans _ _ _ zero_lt_lit_0_3 A)) in H.
      discriminate.
    + pose proof (leb_ltb_trans _ _ _ B lit_0_7_lt_one) as C.
      apply ltb_leb in C. rewrite (ltb_irrefl_leb _ _ H) in C.
      discriminate.
  - destruct (ltb_not_nan _ _ A) as [_ Hn].
    destruct H as [H|[H|H]]; [congruence| |].
    + rewrite (ltb_irrefl_leb _ _ (ltb_trans _ _ _ zero_lt_lit_0_3
        (ltb_trans _ _ _ lit_0_3_lt_lit_0_7 A))) in H.
      discriminate.
    + rewrite (ltb_irrefl_leb _ _ H) in B. discriminate.
Qed.

(** The three labels are the only ones. *)
Lemma level_of_label (s : float64) (l : string) :
  level_of s = Some l ->
  l = "Low"%string \/ l = "Medium"%string \/ l = "High"%string.
Proof.
  destruct (level_of_cases s) as [(E & _)|[(E & _)|[(E & _)|(E & _)]]];
    rewrite E; intros [= <-]; auto.
Qed.

End Buckets.

(** ** The derivation, row by row *)

Section Derivation.

(** C1, at the score 0: the row with age 0, income 0 and loan amount 1000
    has the risk score 0, which is at most 0.3, and gets no risk level
    (the cell is NaN) instead of the label Low. *)
Theorem risk_level_missing_at_score_zero :
  let df := borrowers [(of_Z 0, of_Z 0, of_Z 1000, "Accra"%string)] in
  exists df',
    feature_engineering df = Ok df' /\
    cell df' "risk_score" 0 = Some (Num zero) /\
    leb zero lit_0_3 = true /\
    cell df' "risk_level" 0 = Some (Num nan).
Proof.
  eexists. split; [vm_compute; reflexivity|].
  repeat split; reflexivity.
Qed.

(** Every score that is not above 0 is left without a label. *)
Lemma level_of_nonpositive (s : float64) :
  leb s zero = true -> level_of s = None.
Proof. intros H. apply level_of_none. auto. Qed.

(** C2, as stated, fails on the row with age 25, income 0 and loan amount
    0: the ratio 0/0 is NaN and so is the score, and the row is put in
    none of the three buckets: its risk level is NaN. *)
Lemma nan_score_row_is_in_no_bucket :
  let df := borrowers [(of_Z 25, of_Z 0, of_Z 0, "Volta"%string)] in
  exists df',
    feature_engineering df = Ok df' /\
    cell df' "income_to_loan_ratio" 0 = Some (Num S754_nan) /\
    cell df' "risk_score" 0 = Some (Num S754_nan) /\
    cell df' "risk_level" 0 = Some (Num S754_nan) /\
    ~ (exists label,
         In label ["Low"; "Medium"; "High"]%string /\
         cell df' "risk_level" 0 = Some (Str label)).
Proof.
  eexists. split; [vm_compute; reflexivity|].
  repeat split; try reflexivity.
  intros (label & _ & H). vm_compute in H. discriminate H.
Qed.

(** The clip of the script on one number, case by case. *)
Lemma clip_inside (x : float64) :
  leb zero x = true -> leb x one = true -> Np.clip x zero one = x.
Proof.
  intros H0 H1. destruct (leb_not_nan _ _ H0) as [_ Hn].
  unfold Np.clip, geb. rewrite Hn, H0, H1. reflexivity.
Qed.

(** C2, amended: in every row the block stores the binary64 quotient
    [income / loan_amount] as the ratio and
    [clip(ratio * 0.3 + age * 0.01, 0, 1)] as the risk score: the sum
    itself where it lies in [0, 1], 0 where it is below 0, 1 where it is
    above 1, and NaN where it is NaN. A row whose score is a number above
    0 is put in exactly one of the buckets Low, Medium and High by the
    thresholds 0.3 and 0.7: Low up to 0.3, Medium above 0.3 and up to
    0.7, High above 0.7. A row whose score is NaN gets no level. The
    arithmetic and the comparisons are those of IEEE 754 binary64, as
    the Standard Library specifies them. *)
Theorem derivation_formulas_on_scored_rows (df df' : DataFrame) (i : nat)
  (income loan_amount age : float64) :
  feature_engineering df = Ok df' ->
  cell df "income" i = Some (Num income) ->
  cell df "loan_amount" i = Some (Num loan_amount) ->
  cell df "age" i = Some (Num age) ->
  let ratio := SFdiv 53%Z 1024%Z income loan_amount in
  let sum :=
    SFadd 53%Z 1024%Z (SFmul 53%Z 1024%Z ratio lit_0_3)
      (SFmul 53%Z 1024%Z age lit_0_01) in
  exists score,
    cell df' "income_to_loan_ratio" i = Some (Num ratio) /\
    cell df' "risk_score" i = Some (Num score) /\
    (sum = S754_nan -> score = S754_nan) /\
    (SFltb sum zero = true -> score = zero) /\
    (SFltb one sum = true -> score = one) /\
    (SFleb zero sum = true -> SFleb sum one = true -> score = sum) /\
    (score = S754_nan -> cell df' "risk_level" i = Some (Num S754_nan)) /\
    (SFltb zero score = true ->
     exists label,
       cell df' "risk_level" i = Some (Str label) /\
       (label = "Low"%string \/ label = "Medium"%string \/
        label = "High"%string) /\
       (label = "Low"%string <-> SFleb score lit_0_3 = true) /\
       (label = "Medium"%string <->
          SFltb lit_0_3 score = true /\ SFleb score lit_0_7 = true) /\
       (label = "High"%string <-> SFltb lit_0_7 score = true)).
Proof.
  intros H Hi Hl Ha ratio sum.
  destruct (feature_engineering_row _ _ _ _ _ _ H Hi Hl Ha)
    as (_ & _ & _ & Hr & Hs & Hv).
  change (ratio_of income loan_amount) with ratio in Hr, Hs, Hv.
  change (score_of ratio age) with (Np.clip sum zero one) in Hs, Hv.
  exists (Np.clip sum zero one).
  split; [exact Hr|]. split; [exact Hs|].
  split; [intros ->; reflexivity|].
  split; [exact (clip_below sum)|].
  split; [exact (clip_above sum)|].
  split; [exact (clip_inside sum)|].
  set (score := Np.clip sum zero one) in *.
  split; [intros E; rewrite Hv, E; reflexivity|].
  intros P. change (ltb zero score = true) in P.
  destruct (ltb_not_nan _ _ P) as [_ Hn].
  assert (B : leb score one = true).
  { unfold score in *. rewrite clip_is_nan in Hn. apply clip_bounds, Hn. }
  pose proof (level_of_low score) as Low.
  pose proof (level_of_medium score) as Medium.
  pose proof (level_of_high score) as High.
  pose proof (level_of_none score) as Nothing.
  destruct (level_of score) as [label|] eqn:E.
  - exists label. split; [exact Hv|].
    split; [apply (level_of_label score), E|].
    assert (I : forall l : string, Some label = Some l <-> label = l)
      by (intros l; split; [intros [= ->]|intros ->]; reflexivity).
    rewrite I in Low, Medium, High.
    split; [rewrite Low; tauto|]. split; [exact Medium|].
    rewrite High. tauto.
  - exfalso. destruct Nothing as [N _].
    destruct (N eq_refl) as [K|[K|K]].
    + congruence.
    + rewrite (ltb_irrefl_leb _ _ P) in K. discriminate.
    + rewrite (ltb_irrefl_leb _ _ K) in B. discriminate.
Qed.

Lemma derivation_formulas_on_scored_rows_witness :
  let df := borrowers [(of_Z 60, of_Z 9000, of_Z 3000, "Ashanti"%string)] in
  let ratio := SFdiv 53%Z 1024%Z (of_Z 9000) (of_Z 3000) in
  let sum :=
    SFadd 53%Z 1024%Z (SFmul 53%Z 1024%Z ratio lit_0_3)
      (SFmul 53%Z 1024%Z (of_Z 60) lit_0_01) in
  exists score,
    cell (engineered df) "income_to_loan_ratio" 0 = Some (Num ratio) /\
    cell (engineered df) "risk_score" 0 = Some (Num score) /\
    (sum = S754_nan -> score = S754_nan) /\
    (SFltb sum zero = true -> score = zero) /\
    (SFltb one sum = true -> score = one) /\
    (SFleb zero sum = true -> SFleb sum one = true -> score = sum) /\
    (score = S754_nan ->
     cell (engineered df) "risk_level" 0 = Some (Num S754_nan)) /\
    (SFltb zero score = true ->
     exists label,
       cell (engineered df) "risk_level" 0 = Some (Str label) /\
       (label = "Low"%string \/ label = "Medium"%string \/
        label = "High"%string) /\
       (label = "Low"%string <-> SFleb score lit_0_3 = true) /\
       (label = "Medium"%string <->
          SFltb lit_0_3 score = true /\ SFleb score lit_0_7 = true) /\
       (label = "High"%string <-> SFltb lit_0_7 score = true)).
Proof.
  intros df.
  exact (derivation_formulas_on_scored_rows df (engineered df) 0
           (of_Z 9000) (of_Z 3000) (of_Z 60)
           eq_refl eq_refl eq_refl eq_refl).
Defined.

(** C3, as stated, fails on the row with income 0 and loan amount 0: the
    ratio 0/0 is NaN, the clipped score is NaN, and NaN is not in [0, 1]. *)
Lemma risk_score_nan_not_in_unit_interval :
  let df := borrowers [(of_Z 40, of_Z 0, of_Z 0, "Accra"%string)] in
  exists df' s,
    feature_engineering df = Ok df' /\
    cell df' "risk_score" 0 = Some (Num s) /\
    ~ (leb zero s = true /\ leb s one = true).
Proof.
  eexists. exists nan. split; [vm_compute; reflexivity|].
  split; [reflexivity|]. intros [H _]. discriminate H.
Qed.

(** C3, amended: the risk score of every row is
    [clip(ratio * 0.3 + age * 0.01, 0, 1)]; it lies in [0, 1] whenever the
    sum [ratio * 0.3 + age * 0.01] is a number, whatever its magnitude, and
    it is NaN when that sum is NaN. *)
Theorem risk_score_in_unit_interval_unless_nan (df df' : DataFrame) (i : nat)
  (v : scalar) :
  feature_engineering df = Ok df' ->
  cell df' "risk_score" i = Some v ->
  exists income loan_amount age,
    row_derivation df df' i income loan_amount age /\
    let linear := add (mul (div income loan_amount) lit_0_3)
                    (mul age lit_0_01) in
    let s := Np.clip linear zero one in
    v = Num s /\
    (is_nan linear = false -> leb zero s = true /\ leb s one = true) /\
    (is_nan linear = true -> s = nan).
Proof.
  intros H Hv.
  destruct (feature_engineering_score_row _ _ _ _ H Hv)
    as (income & loan & age & D).
  exists income, loan, age. split; [exact D|].
  destruct D as (_ & _ & _ & _ & Hs & _).
  rewrite Hs in Hv. injection Hv as <-.
  split; [reflexivity|]. split; [apply clip_bounds|apply clip_nan].
Qed.

Lemma risk_score_in_unit_interval_unless_nan_witness :
  let df := borrowers [(of_Z 40, of_Z 3000, of_Z 10000, "Accra"%string)] in
  exists income loan_amount age,
    row_derivation df (engineered df) 0 income loan_amount age /\
    let linear := add (mul (div income loan_amount) lit_0_3)
                    (mul age lit_0_01) in
    let s := Np.clip linear zero one in
    Num lit_0_49 = Num s /\
    (is_nan linear = false -> leb zero s = true /\ leb s one = true) /\
    (is_nan linear = true -> s = nan).
Proof.
  intros df.
  exact (risk_score_in_unit_interval_unless_nan df (engineered df) 0
           (Num lit_0_49) eq_refl eq_refl).
Defined.

(** C8: a row with age 40, income 3000 and loan amount 10000 gets the
    ratio 0.3, the risk score [clip(0.3 * 0.3 + 40 * 0.01, 0, 1) = 0.49]
    and the risk level Medium. *)
Theorem example_row_medium (df df' : DataFrame) (i : nat) :
  feature_engineering df = Ok df' ->
  cell df "age" i = Some (Num (of_Z 40)) ->
  cell df "income" i = Some (Num (of_Z 3000)) ->
  cell df "loan_amount" i = Some (Num (of_Z 10000)) ->
  cell df' "income_to_loan_ratio" i = Some (Num lit_0_3) /\
  cell df' "risk_score" i = Some (Num lit_0_49) /\
  Np.clip (add (mul lit_0_3 lit_0_3) (mul (of_Z 40) lit_0_01)) zero one
    = lit_0_49 /\
  cell df' "risk_level" i = Some (Str "Medium").
Proof.
  intros H Ha Hi Hl.
  destruct (feature_engineering_row _ _ _ _ _ _ H Hi Hl Ha)
    as (_ & _ & _ & Hr & Hs & Hv).
  assert (R : ratio_of (of_Z 3000) (of_Z 10000) = lit_0_3)
    by (vm_compute; reflexivity).
  assert (S : score_of lit_0_3 (of_Z 40) = lit_0_49)
    by (vm_compute; reflexivity).
  assert (L : level_of lit_0_49 = Some "Medium"%string)
    by (vm_compute; reflexivity).
  rewrite R in Hr, Hs, Hv. rewrite S in Hs, Hv. rewrite L in Hv.
  repeat split; assumption.
Qed.

Lemma example_row_medium_witness :
  let df := borrowers [(of_Z 40, of_Z 3000, of_Z 10000, "Accra"%string)] in
  cell (engineered df) "income_to_loan_ratio" 0 = Some (Num lit_0_3) /\
  cell (engineered df) "risk_score" 0 = Some (Num lit_0_49) /\
  Np.clip (add (mul lit_0_3 lit_0_3) (mul (of_Z 40) lit_0_01)) zero one
    = lit_0_49 /\
  cell (engineered df) "risk_level" 0 = Some (Str "Medium").
Proof.
  intros df.
  exact (example_row_medium df (engineered df) 0
           eq_refl eq_refl eq_refl eq_refl).
Defined.

(** *** Division by zero *)

Lemma eqb_zero_cases (x : float64) :
  eqb x zero = true -> x = pzero \/ x = nzero.
Proof.
  destruct x as [[]|[]| |[] m e]; simpl; try discriminate; auto.
Qed.

Lemma gtb_zero_cases (x : float64) :
  gtb x zero = true ->
  x = pinf \/ exists m e, x = S754_finite false m e.
Proof.
  destruct x as [[]|[]| |[] m e]; simpl; try discriminate; eauto.
Qed.

(** An infinite ratio decides the score, unless the age term is NaN or the
    opposite infinity. *)
Lemma score_of_pinf (age : float64) :
  is_nan (mul age lit_0_01) = false -> mul age lit_0_01 <> ninf ->
  score_of pinf age = one.
Proof.
  unfold score_of, linear_of. intros Hn Hi.
  change (mul pinf lit_0_3) with pinf.
  destruct (mul age lit_0_01) as [[]|[]| |[] m e]; try discriminate;
    try reflexivity.
  contradiction Hi; reflexivity.
Qed.

Lemma score_of_ninf (age : float64) :
  is_nan (mul age lit_0_01) = false -> mul age lit_0_01 <> pinf ->
  score_of ninf age = zero.
Proof.
  unfold score_of, linear_of. intros Hn Hi.
  change (mul ninf lit_0_3) with ninf.
  destruct (mul age lit_0_01) as [[]|[]| |[] m e]; try discriminate;
    try reflexivity.
  contradiction Hi; reflexivity.
Qed.

Lemma score_of_nan (age : float64) : score_of nan age = nan.
Proof. reflexivity. Qed.

End Derivation.

(** ** Rows under a boolean mask *)

Section Masks.

Lemma select_map {A B : Type} (f : A -> B) (mask : list bool) (xs : list A) :
  select mask (map f xs) = map f (select mask xs).
Proof.
  revert xs. induction mask as [|b mask IH]; intros [|x xs]; simpl; auto.
  destruct b; simpl; rewrite IH; reflexivity.
Qed.

Lemma select_filter {A : Type} (p : A -> bool) (xs : list A) :
  select (map p xs) xs = filter p xs.
Proof.
  induction xs as [|x xs IH]; simpl; auto.
  destruct (p x); rewrite IH; reflexivity.
Qed.

Lemma select_nil {A : Type} (mask : list bool) : select mask (@nil A) = [].
Proof. destruct mask; reflexivity. Qed.

Lemma cells_select_column (mask : list bool) (c : column) :
  cells (select_column mask c) = select mask (cells c).
Proof. destruct c; simpl; rewrite ?select_map; reflexivity. Qed.

Lemma lookup_map_snd {A B : Type} (f : A -> B) (name : string)
  (l : list (string * A)) :
  lookup name (map (fun na => (fst na, f (snd na))) l) =
  option_map f (lookup name l).
Proof.
  induction l as [|[n a] l IH]; simpl; auto.
  destruct (String.eqb n name); auto.
Qed.

Lemma wf_all_length (df : DataFrame) :
  wf df -> all_length (List.length (index df)) (cell_columns df).
Proof.
  unfold wf, all_length, cell_columns, size. intros H.
  apply Forall_map. exact H.
Qed.

Lemma all_length_tails (n : nat) (cols : list (string * list scalar)) :
  all_length (S n) cols -> all_length n (tails cols).
Proof.
  unfold all_length, tails. intros H. apply Forall_map.
  eapply Forall_impl; [|exact H]. intros [name [|x xs]]; simpl; congruence.
Qed.

Lemma heads_select_true (n : nat) (mask : list bool)
  (cols : list (string * list scalar)) :
  all_length (S n) cols ->
  heads (map (fun nc => (fst nc, select (true :: mask) (snd nc))) cols)
  = heads cols.
Proof.
  intros Hc. unfold heads. rewrite map_map. apply map_ext_Forall.
  eapply Forall_impl; [|exact Hc].
  intros [name [|x xs]]; simpl; auto; discriminate.
Qed.

Lemma tails_select_true (n : nat) (mask : list bool)
  (cols : list (string * list scalar)) :
  all_length (S n) cols ->
  tails (map (fun nc => (fst nc, select (true :: mask) (snd nc))) cols)
  = map (fun nc => (fst nc, select mask (snd nc))) (tails cols).
Proof.
  intros Hc. unfold tails. rewrite !map_map. apply map_ext_Forall.
  eapply Forall_impl; [|exact Hc].
  intros [name [|x xs]]; simpl; auto; discriminate.
Qed.

Lemma select_false_tails (n : nat) (mask : list bool)
  (cols : list (string * list scalar)) :
  all_length (S n) cols ->
  map (fun nc => (fst nc, select (false :: mask) (snd nc))) cols
  = map (fun nc => (fst nc, select mask (snd nc))) (tails cols).
Proof.
  intros Hc. unfold tails. rewrite !map_map. apply map_ext_Forall.
  eapply Forall_impl; [|exact Hc].
  intros [name [|x xs]]; simpl; auto; discriminate.
Qed.

Lemma rows_of_select (idx : list nat) :
  forall (mask : list bool) (cols : list (string * list scalar)),
    List.length mask = List.length idx ->
    all_length (List.length idx) cols ->
    rows_of (select mask idx)
      (map (fun nc => (fst nc, select mask (snd nc))) cols)
    = select mask (rows_of idx cols).
Proof.
  induction idx as [|l idx IH]; intros mask cols Hm Hc.
  - rewrite select_nil. simpl. rewrite select_nil. reflexivity.
  - destruct mask as [|b mask]; [discriminate|].
    injection Hm as Hm.
    change (List.length (l :: idx)) with (S (List.length idx)) in Hc.
    pose proof (all_length_tails _ _ Hc) as Ht.
    destruct b.
    + set (C := map (fun nc => (fst nc, select (true :: mask) (snd nc))) cols).
      cbn [select rows_of]. subst C.
      rewrite (heads_select_true _ mask cols Hc).
      rewrite (tails_select_true _ mask cols Hc).
      rewrite (IH mask (tails cols) Hm Ht). reflexivity.
    + rewrite (select_false_tails _ mask cols Hc).
      cbn [select rows_of].
      apply (IH mask (tails cols) Hm Ht).
Qed.

(** A mask of the length of the table selects rows of the table. *)
Lemma rows_select_rows (mask : list bool) (df : DataFrame) :
  wf df -> List.length mask = List.length (index df) ->
  rows (select_rows mask df) = select mask (rows df).
Proof.
  intros Hw Hm. unfold rows, select_rows. simpl.
  rewrite <- (rows_of_select (index df) mask
               (map (fun nc => (fst nc, cells (snd nc))) (columns df)) Hm
               (wf_all_length df Hw)).
  f_equal. rewrite !map_map. apply map_ext. intros [name c]. simpl.
  rewrite cells_select_column. reflexivity.
Qed.

(** The cells of a column, read off the rows. *)
Lemma rows_of_field (name : string) (idx : list nat) :
  forall (cols : list (string * list scalar)) (xs : list scalar),
    lookup name cols = Some xs ->
    List.length xs = List.length idx ->
    map (fun r : row => field name (snd r)) (rows_of idx cols) = map Some xs.
Proof.
  induction idx as [|l idx IH]; intros cols xs Hl Hn.
  - destruct xs; [reflexivity|discriminate].
  - destruct xs as [|x xs]; [discriminate|]. simpl. f_equal.
    + unfold field, heads. rewrite (lookup_map_snd (hd (Num nan))), Hl.
      reflexivity.
    + apply IH; [|simpl in Hn; congruence].
      unfold tails. rewrite (lookup_map_snd (@tl scalar)), Hl. reflexivity.
Qed.

Lemma length_rows_of (idx : list nat) :
  forall cols, List.length (rows_of idx cols) = List.length idx.
Proof. induction idx; intros cols; simpl; auto. Qed.

Lemma lookup_size (df : DataFrame) (name : string) (c : column) :
  wf df -> lookup name (columns df) = Some c ->
  size c = List.length (index df).
Proof.
  unfold wf. intros Hw. induction Hw as [|[n c'] cols Hc Hw IH]; simpl.
  - discriminate.
  - destruct (String.eqb n name); [intros [= <-]; exact Hc|exact IH].
Qed.

End Masks.

(** ** The filters *)

Section Filters.

Lemma length_select {A B : Type} (mask : list bool) :
  forall (xs : list A) (ys : list B),
    List.length xs = List.length ys ->
    List.length (select mask xs) = List.length (select mask ys).
Proof.
  induction mask as [|b mask IH]; intros xs ys H.
  - reflexivity.
  - destruct xs as [|x xs], ys as [|y ys]; try discriminate; auto.
    injection H as H. destruct b; simpl; auto.
Qed.

Lemma select_In {A : Type} (mask : list bool) :
  forall (xs : list A) (x : A), In x (select mask xs) -> In x xs.
Proof.
  induction mask as [|b mask IH]; intros xs x.
  - simpl. contradiction.
  - destruct xs as [|y xs]; simpl; auto.
    destruct b; simpl; intros H; [destruct H|]; eauto.
Qed.

Lemma wf_select_rows (mask : list bool) (df : DataFrame) :
  wf df -> wf (select_rows mask df).
Proof.
  unfold wf, select_rows, size. simpl. intros H. apply Forall_map.
  eapply Forall_impl; [|exact H]. intros [name c] Hc. simpl in *.
  rewrite cells_select_column. apply length_select. exact Hc.
Qed.

Lemma length_isin (c : column) (values : list scalar) :
  List.length (isin c values) = size c.
Proof. unfold isin, size. apply length_map. Qed.

Lemma length_eq_label (c : column) (label : string) :
  List.length (eq_label c label) = size c.
Proof. unfold eq_label, size. apply length_map. Qed.

(** The mask of [isin] on the region column, read off the rows. *)
Lemma isin_region_rows (df : DataFrame) (region : column)
  (selected_regions : list scalar) :
  wf df -> lookup "region" (columns df) = Some region ->
  isin region selected_regions = map (region_in selected_regions) (rows df).
Proof.
  intros Hw Hl. unfold isin.
  assert (F : map (fun r : row => field "region" (snd r)) (rows df)
              = map Some (cells region)).
  { apply rows_of_field.
    - rewrite (lookup_map_snd cells), Hl. reflexivity.
    - apply (lookup_size df "region" region Hw Hl). }
  transitivity
    (map (fun o : option scalar =>
            match o with
            | Some v => existsb (scalar_eqb v) selected_regions
            | None => false
            end)
       (map (fun r : row => field "region" (snd r)) (rows df))).
  - rewrite F, map_map. reflexivity.
  - rewrite map_map. reflexivity.
Qed.

Lemma region_filter_selects (selected_regions : list scalar)
  (df df' : DataFrame) :
  wf df -> region_filter selected_regions df = Ok df' ->
  wf df' /\
  (selected_regions = [] -> df' = df) /\
  (selected_regions <> [] ->
   rows df' = filter (region_in selected_regions) (rows df)).
Proof.
  intros Hw. unfold region_filter, getitem.
  destruct (lookup "region" (columns df)) as [region|] eqn:Hl; simpl;
    [|discriminate].
  destruct selected_regions as [|v vs].
  - intros [= <-]. repeat split; auto. intros C. contradiction C; reflexivity.
  - intros [= <-]. split; [apply wf_select_rows; exact Hw|].
    split; [discriminate|]. intros _.
    rewrite rows_select_rows;
      [|exact Hw|rewrite length_isin; apply (lookup_size _ _ _ Hw Hl)].
    rewrite (isin_region_rows df region (v :: vs) Hw Hl).
    apply select_filter.
Qed.

Lemma level_filter_selects (selected_level : string) (df df' : DataFrame) :
  wf df -> level_filter selected_level df = Ok df' ->
  wf df' /\ exists mask, rows df' = select mask (rows df).
Proof.
  intros Hw. unfold level_filter, getitem.
  destruct (String.eqb selected_level "All").
  - intros [= <-]. split; [exact Hw|].
    exists (map (fun _ => true) (rows df)).
    rewrite (select_filter (fun _ => true)).
    symmetry. apply forallb_filter_id. apply forallb_forall. reflexivity.
  - destruct (lookup "risk_level" (columns df)) as [level|] eqn:Hl; simpl;
      [|discriminate].
    intros [= <-]. split; [apply wf_select_rows; exact Hw|].
    exists (eq_label level selected_level).
    apply rows_select_rows; [exact Hw|].
    rewrite length_eq_label. apply (lookup_size _ _ _ Hw Hl).
Qed.

(** C4, as stated, fails for the empty selection: the filter is skipped and
    both rows stay, though no region is a member of the empty set. *)
Lemma empty_selection_keeps_all_rows :
  let df := engineered (borrowers
    [(of_Z 40, of_Z 3000, of_Z 10000, "Accra"%string);
     (of_Z 30, of_Z 5000, of_Z 2000, "Volta"%string)]) in
  exists df',
    region_filter [] df = Ok df' /\
    List.length (rows df') = 2 /\
    filter (region_in []) (rows df) = [] /\
    rows df' <> filter (region_in []) (rows df).
Proof.
  eexists. split; [vm_compute; reflexivity|].
  repeat split; try reflexivity. discriminate.
Qed.

(** C4, amended: for every non-empty selection [R] the filtered table
    consists of exactly the rows whose region is a member of [R], in their
    order: each such row is kept and every other row is removed. For the
    empty selection the table is left as it is. *)
Theorem region_filter_rows (selected_regions : list scalar)
  (df df' : DataFrame) :
  wf df ->
  region_filter selected_regions df = Ok df' ->
  (selected_regions <> [] ->
   rows df' = filter (region_in selected_regions) (rows df) /\
   forall r, In r (rows df') <->
             In r (rows df) /\ region_in selected_regions r = true) /\
  (selected_regions = [] -> df' = df).
Proof.
  intros Hw H.
  destruct (region_filter_selects _ _ _ Hw H) as (_ & He & Hn).
  split; [|exact He]. intros Hs. split; [exact (Hn Hs)|].
  intros r. rewrite (Hn Hs). apply filter_In.
Qed.

Lemma wf_borrowers (l : list (float64 * float64 * float64 * string)) :
  wf (borrowers l).
Proof.
  unfold wf, borrowers, size. simpl.
  repeat constructor; simpl; rewrite ?length_map, ?length_seq; reflexivity.
Qed.

Lemma region_filter_rows_witness :
  let df := borrowers
    [(of_Z 40, of_Z 3000, of_Z 10000, "Accra"%string);
     (of_Z 30, of_Z 5000, of_Z 2000, "Volta"%string)] in
  let selected_regions := [Str "Volta"] in
  let df' := select_rows [false; true] df in
  (selected_regions <> [] ->
   rows df' = filter (region_in selected_regions) (rows df) /\
   forall r, In r (rows df') <->
             In r (rows df) /\ region_in selected_regions r = true) /\
  (selected_regions = [] -> df' = df).
Proof.
  intros df selected_regions df'.
  exact (region_filter_rows selected_regions df df'
           (wf_borrowers _) eq_refl).
Defined.

End Filters.

(** ** The frame of the derivation *)

Section Frame.

Lemma assign_Forall (P : string * column -> Prop) (name : string) (c : column)
  (cols : list (string * column)) :
  (forall n, P (n, c)) -> Forall P cols -> Forall P (assign name c cols).
Proof.
  intros Hc H. induction H as [|[n c'] cols Hp H IH]; simpl.
  - constructor; auto.
  - destruct (String.eqb n name); constructor; auto.
Qed.

Lemma wf_setitem (df : DataFrame) (name : string) (c : column) :
  wf df -> size c = List.length (index df) -> wf (setitem df name c).
Proof.
  unfold wf, setitem. simpl. intros H Hc.
  apply assign_Forall; auto.
Qed.

Lemma length_ratio_column (income loan_amount : list float64) (n : nat) :
  List.length income = n -> List.length loan_amount = n ->
  List.length (ratio_column income loan_amount) = n.
Proof.
  intros <- H. unfold ratio_column. rewrite length_zip_with, H.
  apply Nat.min_id.
Qed.

Lemma length_score_column (ratio age : list float64) (n : nat) :
  List.length ratio = n -> List.length age = n ->
  List.length (score_column ratio age) = n.
Proof.
  intros <- H. unfold score_column.
  rewrite length_map, length_zip_with, !length_map, H. apply Nat.min_id.
Qed.

Lemma size_Float64 (xs : list float64) : size (Float64 xs) = List.length xs.
Proof. unfold size. simpl. apply length_map. Qed.

Lemma wf_feature_engineering (df df' : DataFrame) :
  wf df -> feature_engineering df = Ok df' -> wf df'.
Proof.
  intros Hw H.
  destruct (feature_engineering_inv _ _ H) as (incs & ls & ags & Li & Ll & La & ->).
  pose proof (lookup_size _ _ _ Hw Li) as Si.
  pose proof (lookup_size _ _ _ Hw Ll) as Sl.
  pose proof (lookup_size _ _ _ Hw La) as Sa.
  rewrite size_Float64 in Si, Sl, Sa.
  pose proof (length_ratio_column _ _ _ Si Sl) as Sr.
  pose proof (length_score_column _ _ _ Sr Sa) as Ss.
  unfold derived. repeat apply wf_setitem; trivial; simpl.
  - rewrite size_Float64. exact Sr.
  - rewrite size_Float64. exact Ss.
  - unfold size. simpl. rewrite !length_map. exact Ss.
Qed.

Lemma eqb_not_In (name : string) (l : list string) :
  ~ In name l -> forall n, In n l -> String.eqb n name = false.
Proof.
  intros H n Hn. apply String.eqb_neq. intros ->. contradiction.
Qed.

Lemma derived_lookup_other (df : DataFrame)
  (income loan_amount age : list float64) (name : string) :
  ~ In name derived_names ->
  lookup name (columns (derived df income loan_amount age))
  = lookup name (columns df).
Proof.
  intros Hn. pose proof (eqb_not_In _ _ Hn) as E.
  unfold derived, setitem. simpl.
  rewrite !lookup_assign_other; auto; apply E; simpl; auto.
Qed.

Lemma required_not_derived (name : string) :
  In name required_columns -> ~ In name derived_names.
Proof.
  unfold required_columns, derived_names. simpl.
  intros H D. repeat (destruct H as [<-|H]; [
    repeat (destruct D as [D|D]; [discriminate D|]); exact D |]).
  exact H.
Qed.

Lemma assign_names (name : string) (c : column)
  (cols : list (string * column)) (n : string) :
  In n (map fst (assign name c cols)) <-> In n (map fst cols) \/ n = name.
Proof.
  induction cols as [|[m c'] cols IH]; simpl.
  - intuition.
  - destruct (String.eqb m name) eqn:E; simpl.
    + apply String.eqb_eq in E. subst m. intuition.
    + rewrite IH. intuition.
Qed.

Lemma filter_as_select {A : Type} (p : A -> bool) (xs : list A) :
  exists mask, filter p xs = select mask xs.
Proof. exists (map p xs). symmetry. apply select_filter. Qed.

Lemma select_all {A : Type} (xs : list A) :
  exists mask, xs = select mask xs.
Proof.
  exists (map (fun _ => true) xs). rewrite (select_filter (fun _ => true)).
  symmetry. apply forallb_filter_id. apply forallb_forall. reflexivity.
Qed.

(** C9: the derivation keeps the row labels and the number of rows, leaves
    every column other than the three derived ones as it was loaded, so
    the seven required columns in particular, cell by cell, and adds
    nothing but the three derived names; the region filter and the
    risk-level filter then only select rows of the derived table: every
    row they show is a row of it, unchanged and in its order. *)
Theorem derivation_frame (df df' : DataFrame) :
  wf df ->
  feature_engineering df = Ok df' ->
  index df' = index df /\
  List.length (rows df') = List.length (rows df) /\
  (forall name, In name required_columns ->
     lookup name (columns df') = lookup name (columns df)) /\
  (forall name i, In name required_columns ->
     cell df' name i = cell df name i) /\
  (forall name, ~ In name derived_names ->
     lookup name (columns df') = lookup name (columns df)) /\
  (forall name, In name (column_names df') <->
     In name (column_names df) \/ In name derived_names) /\
  (forall selected_regions filtered,
     region_filter selected_regions df' = Ok filtered ->
     (exists mask, rows filtered = select mask (rows df')) /\
     (forall r, In r (rows filtered) -> In r (rows df')) /\
     forall selected_level shown,
       level_filter selected_level filtered = Ok shown ->
       (exists mask, rows shown = select mask (rows filtered)) /\
       (forall r, In r (rows shown) -> In r (rows filtered))).
Proof.
  intros Hw H. pose proof (wf_feature_engineering _ _ Hw H) as Hw'.
  destruct (feature_engineering_inv _ _ H) as (incs & ls & ags & Li & Ll & La & E).
  assert (O : forall name, ~ In name derived_names ->
                lookup name (columns df') = lookup name (columns df))
    by (intros name Hn; subst df'; apply derived_lookup_other; exact Hn).
  split; [subst df'; reflexivity|].
  split; [unfold rows; rewrite !length_rows_of; subst df'; reflexivity|].
  split; [intros name Hn; apply O, required_not_derived, Hn|].
  split; [intros name i Hn; unfold cell;
          rewrite (O name (required_not_derived _ Hn)); reflexivity|].
  split; [exact O|].
  split.
  { intros name. subst df'. unfold column_names, derived, setitem. simpl.
    rewrite !assign_names. unfold derived_names. simpl. intuition. }
  intros R filtered HR.
  destruct (region_filter_selects _ _ _ Hw' HR) as (Hwf & He & Hn).
  assert (M : exists mask, rows filtered = select mask (rows df')).
  { destruct R as [|v vs].
    - rewrite (He eq_refl). apply select_all.
    - rewrite Hn by discriminate. apply filter_as_select. }
  split; [exact M|].
  split; [destruct M as (mask & ->); apply select_In|].
  intros lvl shown HL.
  destruct (level_filter_selects _ _ _ Hwf HL) as (_ & mask & ->).
  split; [exists mask; reflexivity|apply select_In].
Qed.

Lemma derivation_frame_witness :
  let df := borrowers
    [(of_Z 40, of_Z 3000, of_Z 10000, "Accra"%string);
     (of_Z 60, of_Z 9000, of_Z 3000, "Volta"%string)] in
  let df' := engineered df in
  index df' = index df /\
  List.length (rows df') = List.length (rows df) /\
  (forall name, In name required_columns ->
     lookup name (columns df') = lookup name (columns df)) /\
  (forall name i, In name required_columns ->
     cell df' name i = cell df name i) /\
  (forall name, ~ In name derived_names ->
     lookup name (columns df') = lookup name (columns df)) /\
  (forall name, In name (column_names df') <->
     In name (column_names df) \/ In name derived_names) /\
  (forall selected_regions filtered,
     region_filter selected_regions df' = Ok filtered ->
     (exists mask, rows filtered = select mask (rows df')) /\
     (forall r, In r (rows filtered) -> In r (rows df')) /\
     forall selected_level shown,
       level_filter selected_level filtered = Ok shown ->
       (exists mask, rows shown = select mask (rows filtered)) /\
       (forall r, In r (rows shown) -> In r (rows filtered))).
Proof.
  intros df df'.
  exact (derivation_frame df df' (wf_borrowers _) eq_refl).
Defined.

End Frame.

(** ** Column validation *)

Section Validation.

Lemma existsb_eqb_In (c : string) (l : list string) :
  existsb (String.eqb c) l = true <-> In c l.
Proof.
  rewrite existsb_exists. split.
  - intros (x & Hx & E). apply String.eqb_eq in E. subst x. exact Hx.
  - intros H. exists c. split; [exact H|apply String.eqb_refl].
Qed.

Lemma missing_cols_spec (df : DataFrame) (c : string) :
  In c (missing_cols df) <->
  In c required_columns /\ ~ In c (column_names df).
Proof.
  unfold missing_cols. rewrite filter_In, negb_true_iff.
  split; intros [A B]; (split; [exact A|]).
  - intros H. apply existsb_eqb_In in H. congruence.
  - destruct (existsb (String.eqb c) (column_names df)) eqn:E; [|reflexivity].
    exfalso. apply B, existsb_eqb_In, E.
Qed.

Lemma NoDup_required_columns : NoDup required_columns.
Proof.
  unfold required_columns.
  repeat (constructor; [simpl; intros H;
    repeat (destruct H as [H|H]; [discriminate H|]); exact H|]).
  constructor.
Qed.

(** C5: when the loaded table lacks one of the seven required columns, the
    script stops right after the single message "Missing required
    columns: ..." and shows no table: nothing is derived or drawn. The
    message joins with ", " the names of [missing_cols], which are exactly
    the required names that the table lacks, each once, in the order of
    the requirement list. *)
Theorem missing_columns_halt (df : DataFrame) (selected_regions : list scalar) :
  (exists c, In c required_columns /\ ~ In c (column_names df)) ->
  prepare (Loaded df) selected_regions =
    Stopped [St.error ("Missing required columns: "
                       ++ String.concat ", " (missing_cols df))%string] /\
  (forall c, In c (missing_cols df) <->
             In c required_columns /\ ~ In c (column_names df)) /\
  NoDup (missing_cols df) /\
  missing_cols df =
    filter (fun c => negb (existsb (String.eqb c) (column_names df)))
      required_columns.
Proof.
  intros (c & Hc). apply missing_cols_spec in Hc.
  split; [|split; [apply missing_cols_spec|split; [|reflexivity]]].
  - unfold prepare. destruct (missing_cols df) as [|m ms] eqn:E.
    + contradiction Hc.
    + reflexivity.
  - unfold missing_cols. apply NoDup_filter, NoDup_required_columns.
Qed.

Lemma missing_columns_halt_witness :
  let df := mkDataFrame [O]
    [("gender"%string, Object [Str "F"]);
     ("age"%string, Float64 [of_Z 40]);
     ("loan_amount"%string, Float64 [of_Z 10000]);
     ("occupation"%string, Object [Str "Trader"]);
     ("Region"%string, Object [Str "Accra"])] in
  prepare (Loaded df) [] =
    Stopped [St.error "Missing required columns: income, loan_history, region"] /\
  (forall c, In c ["income"; "loan_history"; "region"]%string <->
             In c required_columns /\ ~ In c (column_names df)) /\
  NoDup ["income"; "loan_history"; "region"]%string /\
  ["income"; "loan_history"; "region"]%string =
    filter (fun c => negb (existsb (String.eqb c) (column_names df)))
      required_columns.
Proof.
  intros df.
  refine (missing_columns_halt df [] _).
  exists "income"%string. split.
  - simpl. auto.
  - simpl. intros H.
    repeat (destruct H as [H|H]; [discriminate H|]). exact H.
Defined.

End Validation.

(** ** The selector of the recommendation *)

Section Recommendation.

Lemma insert_desc_In (p q : nat * float64) (l : list (nat * float64)) :
  In q (insert_desc p l) <-> q = p \/ In q l.
Proof.
  induction l as [|r l IH]; simpl.
  - intuition.
  - destruct (precedes (snd r) (snd p)); simpl; rewrite ?IH; intuition.
Qed.

Lemma insertion_sort_In (q : nat * float64) (l : list (nat * float64)) :
  In q (fold_right insert_desc [] l) <-> In q l.
Proof.
  induction l as [|p l IH]; simpl.
  - reflexivity.
  - rewrite insert_desc_In, IH. intuition.
Qed.

Lemma insert_desc_not_nil (p : nat * float64) (l : list (nat * float64)) :
  insert_desc p l <> [].
Proof. destruct l as [|r l]; simpl; [|destruct (precedes _ _)]; discriminate. Qed.

(** The sorted positions are positions of the column. *)
Lemma argsort_desc_bound (xs : list float64) (p : nat) :
  In p (argsort_desc xs) -> (p < List.length xs)%nat.
Proof.
  unfold argsort_desc. rewrite in_map_iff. intros ([p' x] & <- & H).
  apply insertion_sort_In, in_combine_l, in_seq in H. simpl. lia.
Qed.

Lemma argsort_desc_not_nil (xs : list float64) :
  xs <> [] -> argsort_desc xs <> [].
Proof.
  destruct xs as [|x xs]; [congruence|]. intros _. unfold argsort_desc.
  simpl. intros H. apply map_eq_nil in H.
  exact (insert_desc_not_nil _ _ H).
Qed.

Lemma first_position_In (x : nat) (l : list nat) :
  In x l -> exists p, first_position x l = Some p /\ nth_error l p = Some x.
Proof.
  induction l as [|y l IH]; simpl; [contradiction|]. intros H.
  destruct (Nat.eqb y x) eqn:E.
  - apply Nat.eqb_eq in E. subst y. exists O. auto.
  - destruct H as [->|H]; [rewrite Nat.eqb_refl in E; discriminate|].
    destruct (IH H) as (p & -> & Hp). exists (S p). auto.
Qed.

Lemma existsb_eqb_nat (x : nat) (l : list nat) :
  In x l -> existsb (Nat.eqb x) l = true.
Proof.
  intros H. apply existsb_exists. exists x. split; [exact H|apply Nat.eqb_refl].
Qed.

(** On a table with rows, the first branch is always the one taken: the
    head of [top_indices] is a label of the table. *)
Lemma default_review_position_first_branch (df : DataFrame)
  (xs : list float64) :
  List.length xs = List.length (index df) ->
  index df <> [] ->
  exists t p,
    hd_error (index (head 5 (take (argsort_desc xs) df))) = Some t /\
    nth_error (index df) p = Some t /\
    default_review_position (index (head 5 (take (argsort_desc xs) df)))
      (index df) = ([], Some p).
Proof.
  intros Hn Hi.
  assert (Hx : xs <> []) by (destruct xs, (index df); simpl in *; congruence).
  destruct (argsort_desc xs) as [|p0 ps] eqn:E;
    [exact (False_ind _ (argsort_desc_not_nil xs Hx E))|].
  assert (B : (p0 < List.length (index df))%nat).
  { rewrite <- Hn. apply argsort_desc_bound. rewrite E. simpl. auto. }
  pose proof (nth_In (index df) O B) as Ht.
  destruct (first_position_In _ _ Ht) as (p & Hp & Hnth).
  exists (nth p0 (index df) O), p. simpl.
  unfold default_review_position.
  rewrite (existsb_eqb_nat _ _ Ht). simpl. rewrite Hp. auto.
Qed.

Lemma default_review_position_empty :
  default_review_position [] [] = ([St.error no_borrowers_error], None).
Proof. reflexivity. Qed.

(** C6, against the code: the block never shows the warning "No high-risk
    borrowers available ...". On every table with rows, with or without
    high-risk rows, it takes the first branch and offers the select box
    at the position of the row of greatest score, since [top_indices] is
    never narrowed to the high-risk rows. On a table without rows it
    shows the error "No borrowers available to review ..." and offers no
    select box. *)
Theorem recommendation_selector_never_warns (df : DataFrame)
  (picked : option nat) (log : list St.event) :
  wf df ->
  recommendation_selector df picked = Ok log ->
  (forall body, ~ In (St.warning body) log) /\
  (index df = [] -> log = [St.error no_borrowers_error]) /\
  (index df <> [] ->
   exists position selected_index level score,
     log = [St.selectbox "Select borrower for review" (index df) position;
            St.info selected_index level score (recommend level)]).
Proof.
  intros Hw H. unfold recommendation_selector, sort_values_desc, getitem in H.
  destruct (lookup "risk_score" (columns df)) as [c|] eqn:Hl;
    cbn [bind] in H; [|discriminate].
  pose proof (lookup_size _ _ _ Hw Hl) as Hs.
  destruct c as [xs| |]; cbn [bind numeric] in H; try discriminate.
  rewrite size_Float64 in Hs.
  assert (D : index df = [] \/ index df <> [])
    by (destruct (index df); [left|right]; congruence).
  destruct D as [Hi|Hi].
  - rewrite Hi in Hs. destruct xs; [|discriminate].
    change (index (head 5 (take (argsort_desc []) df))) with (@nil nat) in H.
    rewrite Hi in H. simpl in H. injection H as <-.
    split; [|split; [reflexivity|congruence]].
    intros body [H|[]]. discriminate H.
  - destruct (default_review_position_first_branch df xs Hs Hi)
      as (t & p & _ & _ & E).
    rewrite E in H.
    destruct (index df) as [|l idx] eqn:Hd; [congruence|].
    destruct (St.selectbox_value (l :: idx) p picked) as [sel|];
      [|discriminate].
    destruct (loc df sel) as [borrower|]; [|discriminate].
    destruct (row_field borrower "risk_level") as [level|];
      cbn [bind] in H; [|discriminate].
    destruct (row_field borrower "risk_score") as [score|];
      cbn [bind] in H; [|discriminate].
    injection H as <-. split; [|split; [congruence|]].
    + intros body [H|[H|[]]]; discriminate H.
    + intros _. exists p, sel, level, score. reflexivity.
Qed.

Lemma recommendation_selector_never_warns_witness :
  let df := engineered (borrowers
    [(of_Z 40, of_Z 3000, of_Z 10000, "Accra"%string)]) in
  let log := [St.selectbox "Select borrower for review" [O] O;
              St.info O (Str "Medium") (Num lit_0_49) "Likely Approve"] in
  (forall body, ~ In (St.warning body) log) /\
  (index df = [] -> log = [St.error no_borrowers_error]) /\
  (index df <> [] ->
   exists position selected_index level score,
     log = [St.selectbox "Select borrower for review" (index df) position;
            St.info selected_index level score (recommend level)]).
Proof.
  intros df log.
  refine (recommendation_selector_never_warns df None log _ eq_refl).
  apply (wf_feature_engineering (borrowers
    [(of_Z 40, of_Z 3000, of_Z 10000, "Accra"%string)])).
  - apply wf_borrowers.
  - reflexivity.
Defined.

(** The branch that warns needs a table with rows whose top label is not
    a label of the table: it needs [top_indices] and [select_options] to
    disagree, which the two index lists of one table never do. *)
Lemma warning_branch_condition (top_indices select_options : list nat)
  (body : string) :
  In (St.warning body) (fst (default_review_position top_indices select_options)) ->
  select_options <> [] /\
  (top_indices = [] \/
   exists t, hd_error top_indices = Some t /\ ~ In t select_options).
Proof.
  unfold default_review_position.
  destruct top_indices as [|t ts].
  - destruct select_options; simpl; intros [H|[]]; try discriminate H.
    split; [discriminate|auto].
  - destruct (existsb (Nat.eqb t) select_options) eqn:E; simpl;
      [contradiction|].
    destruct select_options as [|o os]; simpl; intros [H|[]];
      try discriminate H.
    split; [discriminate|]. right. exists t. split; [reflexivity|].
    intros Hin. rewrite (existsb_eqb_nat t (o :: os) Hin) in E. discriminate.
Qed.

End Recommendation.

(** ** Correct rounding is monotone *)

Section RoundingFacts.

Local Open Scope Z_scope.

(** The number of binary digits. *)
Lemma fexp_eq (k : Z) : fexp prec emax k = Z.max (k - 53) (-1074).
Proof. reflexivity. Qed.

Lemma digits2_pos_size (p : positive) : digits2_pos p = Pos.size p.
Proof. induction p; simpl; congruence. Qed.

Lemma Zdigits2_log2 (m : Z) : 0 < m -> Zdigits2 m = Z.log2 m + 1.
Proof.
  destruct m as [|p|p]; try lia. intros _. simpl.
  rewrite digits2_pos_size. destruct p; simpl; lia.
Qed.

Lemma Zdigits2_bounds (m : Z) :
  0 < m -> 2 ^ (Zdigits2 m - 1) <= m < 2 ^ Zdigits2 m.
Proof.
  intros H. rewrite (Zdigits2_log2 m H).
  replace (Z.log2 m + 1 - 1) with (Z.log2 m) by lia.
  replace (Z.log2 m + 1) with (Z.succ (Z.log2 m)) by lia.
  apply Z.log2_spec. exact H.
Qed.

Lemma Zdigits2_unique (m d : Z) :
  2 ^ (d - 1) <= m < 2 ^ d -> 0 < m -> Zdigits2 m = d.
Proof.
  intros H Hm. rewrite (Zdigits2_log2 m Hm).
  assert (0 <= d - 1).
  { destruct (Z.le_gt_cases 0 (d - 1)); auto.
    assert (d <= 0) by lia.
    assert (2 ^ d <= 2 ^ 0) by (apply Z.pow_le_mono_r; lia).
    simpl in *. lia. }
  rewrite (Z.log2_unique m (d - 1)); try lia.
  replace (Z.succ (d - 1)) with d by lia. exact H.
Qed.

Lemma Zdigits2_nonneg (m : Z) : 0 <= Zdigits2 m.
Proof. destruct m; simpl; lia. Qed.

Lemma Zdigits2_0 : Zdigits2 0 = 0.
Proof. reflexivity. Qed.

Lemma Zdigits2_le (a b : Z) : 0 <= a -> a <= b -> Zdigits2 a <= Zdigits2 b.
Proof.
  intros Ha Hab. destruct (Z.eq_dec a 0) as [->|Hn].
  - apply Zdigits2_nonneg.
  - rewrite !Zdigits2_log2 by lia.
    pose proof (Z.log2_le_mono a b Hab). lia.
Qed.

(** Shifting a record to the right keeps the value it represents, at a
    doubled denominator. *)
Lemma loc_of_shr_record_of_loc (m : Z) (l : location) :
  loc_of_shr_record (shr_record_of_loc m l) = l /\
  shr_m (shr_record_of_loc m l) = m.
Proof. destruct l as [|[]]; simpl; auto. Qed.

Lemma represents_init (m : Z) (l : location) (A D : Z) :
  m = A / D -> l = loc_frac (A mod D) D ->
  represents (shr_record_of_loc m l) A D.
Proof.
  intros -> ->. unfold represents.
  destruct (loc_of_shr_record_of_loc (A / D) (loc_frac (A mod D) D)); auto.
Qed.

Lemma shr_1_div2 (m : Z) (r s : bool) :
  0 <= m ->
  shr_1 (Build_shr_record m r s) =
  Build_shr_record (m / 2) (Z.odd m) (r || s).
Proof.
  intros H. destruct m as [|p|p]; try lia.
  - reflexivity.
  - destruct p as [p|p|]; simpl.
    + f_equal. change (Z.pos p~1) with (2 * Z.pos p + 1).
      apply Z.div_unique with 1; lia.
    + f_equal. change (Z.pos p~0) with (2 * Z.pos p).
      apply Z.div_unique with 0; lia.
    + reflexivity.
Qed.

Lemma represents_shr_1 (mrs : shr_record) (A D : Z) :
  0 <= A -> 0 < D ->
  represents mrs A D -> represents (shr_1 mrs) A (2 * D).
Proof.
  intros HA HD [Hm Hl]. destruct mrs as [m r s]. cbn [shr_m] in Hm.
  assert (Hq : 0 <= m) by (subst m; apply Z.div_pos; lia).
  rewrite (shr_1_div2 m r s Hq). unfold represents. cbn [shr_m].
  pose proof (Z.mod_pos_bound A D HD) as Hr.
  pose proof (Z.div_mod A D ltac:(lia)) as HAD. rewrite <- Hm in HAD.
  pose proof (Z.div_mod m 2 ltac:(lia)) as Hm2.
  pose proof (Z.mod_pos_bound m 2 ltac:(lia)) as Hb.
  assert (O : Z.odd m = (m mod 2 =? 1))
    by (rewrite (Zmod_odd m); destruct (Z.odd m); reflexivity).
  remember (A mod D) as rho eqn:Erho. remember (m mod 2) as b eqn:Eb.
  assert (Hdiv : A / (2 * D) = m / 2).
  { symmetry. apply Z.div_unique with (b * D + rho); nia. }
  assert (Hmod : A mod (2 * D) = b * D + rho).
  { symmetry. apply Z.mod_unique with (m / 2); nia. }
  split; [symmetry; exact Hdiv|].
  assert (S : r || s = negb (rho =? 0)).
  { unfold loc_frac in Hl. destruct (rho =? 0); destruct r, s;
      simpl in *; congruence. }
  rewrite Hmod, O, S. unfold loc_frac.
  assert (B : b = 0 \/ b = 1) by lia.
  clear - B Hr HD.
  destruct B as [-> | ->];
    repeat match goal with
    | |- context [Z.eqb ?a ?b] => destruct (Z.eqb_spec a b)
    | |- context [Z.compare ?a ?b] => destruct (Z.compare_spec a b)
    end; cbn [loc_of_shr_record negb]; try lia; try reflexivity.
Qed.

Lemma represents_iter_pos (p : positive) :
  forall (mrs : shr_record) (A D : Z),
    0 <= A -> 0 < D -> represents mrs A D ->
    represents (iter_pos shr_1 p mrs) A (D * 2 ^ Z.pos p).
Proof.
  induction p as [p IH|p IH|]; intros mrs A D HA HD H; cbn [iter_pos].
  - assert (P : 0 < 2 ^ Z.pos p) by (apply Z.pow_pos_nonneg; lia).
    apply represents_shr_1 in H; [|lia|lia].
    apply IH in H; [|lia|lia]. apply IH in H; [|lia|nia].
    replace (D * 2 ^ Z.pos p~1) with (2 * D * 2 ^ Z.pos p * 2 ^ Z.pos p);
      [exact H|].
    rewrite (Pos2Z.inj_xI p).
    replace (2 * Z.pos p + 1) with (Z.pos p + Z.pos p + 1) by lia.
    rewrite !Z.pow_add_r by lia. change (2 ^ 1) with 2. ring.
  - assert (P : 0 < 2 ^ Z.pos p) by (apply Z.pow_pos_nonneg; lia).
    apply IH in H; [|lia|lia]. apply IH in H; [|lia|nia].
    replace (D * 2 ^ Z.pos p~0) with (D * 2 ^ Z.pos p * 2 ^ Z.pos p);
      [exact H|].
    rewrite (Pos2Z.inj_xO p).
    replace (2 * Z.pos p) with (Z.pos p + Z.pos p) by lia.
    rewrite !Z.pow_add_r by lia. ring.
  - apply represents_shr_1 in H; [|lia|lia].
    replace (D * 2 ^ 1) with (2 * D) by (change (2 ^ 1) with 2; lia). exact H.
Qed.

Lemma represents_shr (mrs : shr_record) (e n A D : Z) :
  0 <= A -> 0 < D -> 0 <= n -> represents mrs A D ->
  represents (fst (shr mrs e n)) A (D * 2 ^ n) /\ snd (shr mrs e n) = e + n.
Proof.
  intros HA HD Hn H. destruct n as [|p|p]; try lia; cbn [shr fst snd].
  - rewrite Z.pow_0_r, Z.mul_1_r. split; [exact H|lia].
  - split; [apply represents_iter_pos; assumption|reflexivity].
Qed.

Lemma round_nearest_even_rne (mrs : shr_record) (A D : Z) :
  represents mrs A D ->
  round_nearest_even (shr_m mrs) (loc_of_shr_record mrs) = rne A D.
Proof.
  intros [-> ->]. unfold rne, loc_frac, round_nearest_even.
  destruct (A mod D =? 0); [reflexivity|].
  destruct (2 * (A mod D) ?= D); reflexivity.
Qed.

Lemma rne_bounds (A D : Z) : A / D <= rne A D <= A / D + 1.
Proof.
  unfold rne. destruct (A mod D =? 0); [lia|].
  destruct (2 * (A mod D) ?= D); [destruct (Z.even (A / D))| |]; lia.
Qed.


Lemma binary_round_aux_finish (s : bool) (m e : Z) (l : location) (A D : Z) :
  0 <= A -> 0 < D ->
  m = A / D -> l = loc_frac (A mod D) D ->
  let t := fexp prec emax (Zdigits2 m + e) in
  e <= t ->
  binary_round_aux prec emax s m e l = finish s (rne A (D * 2 ^ (t - e))) t.
Proof.
  intros HA HD Hm Hl t Ht.
  pose proof (represents_init m l A D Hm Hl) as R.
  destruct (represents_shr _ e (t - e) A D HA HD ltac:(lia) R) as [R' E'].
  unfold binary_round_aux. unfold shr_fexp at 1. fold t.
  destruct (shr (shr_record_of_loc m l) e (t - e)) as [mrs' e'] eqn:S.
  cbn [fst snd] in R', E'. subst e'.
  rewrite (round_nearest_even_rne _ _ _ R').
  replace (e + (t - e)) with t by lia. reflexivity.
Qed.

Lemma finish_zero (s : bool) (t : Z) : -1074 <= t -> finish s 0 t = out s 0 t.
Proof.
  intros Ht. unfold finish, shr_fexp. rewrite Zdigits2_0, fexp_eq.
  cbn [shr_record_of_loc]. unfold shr.
  destruct (Z.max (0 + t - 53) (-1074) - t) eqn:E; try reflexivity. lia.
Qed.

Lemma finish_canonical (s : bool) (mr t : Z) :
  0 < mr -> fexp prec emax (Zdigits2 mr + t) = t -> mr < 2 ^ 53 ->
  finish s mr t = out s mr t.
Proof.
  intros Hm Hc Hlt. unfold finish, shr_fexp. rewrite Hc, Z.sub_diag.
  cbn [shr shr_record_of_loc shr_m]. unfold out.
  destruct mr as [|p|p]; try lia.
  destruct (Z.ltb_spec (Z.pos p) (2 ^ 53)); [reflexivity|lia].
Qed.

Lemma finish_carry (s : bool) (t : Z) :
  -1074 <= t -> finish s (2 ^ 53) t = out s (2 ^ 53) t.
Proof.
  intros Ht. unfold finish, shr_fexp.
  change (Zdigits2 (2 ^ 53)) with 54. rewrite fexp_eq.
  replace (Z.max (54 + t - 53) (-1074) - t) with 1 by lia.
  reflexivity.
Qed.

Lemma pow2_pos (k : Z) : 0 <= k -> 0 < 2 ^ k.
Proof. intros H. apply Z.pow_pos_nonneg; lia. Qed.

Lemma cexp_ge (A D : Z) : -1074 <= cexp A D.
Proof. unfold cexp. rewrite fexp_eq. lia. Qed.

Lemma digits_pow2 (k : Z) : 0 <= k -> Zdigits2 (2 ^ k) = k + 1.
Proof.
  intros H. apply Zdigits2_unique; [|apply pow2_pos; exact H].
  replace (k + 1 - 1) with k by lia. split; [lia|].
  apply Z.pow_lt_mono_r; lia.
Qed.

Lemma digits_lt_pow2 (m k : Z) : 0 <= m -> 0 <= k -> m < 2 ^ k -> Zdigits2 m <= k.
Proof.
  intros Hm Hk H. destruct (Z.eq_dec m 0) as [->|Hn]; [simpl; lia|].
  destruct (Z.le_gt_cases (Zdigits2 m) k) as [L|G]; [exact L|].
  pose proof (Zdigits2_bounds m ltac:(lia)) as [B _].
  assert (2 ^ k <= 2 ^ (Zdigits2 m - 1)) by (apply Z.pow_le_mono_r; lia).
  lia.
Qed.

Lemma rne_range (A D : Z) :
  0 <= A -> 0 < D ->
  let t := cexp A D in
  let mr := rne A (D * 2 ^ (t - E0)) in
  0 <= mr <= 2 ^ 53 /\
  (0 < mr < 2 ^ 53 -> fexp prec emax (Zdigits2 mr + t) = t) /\
  (-1074 < t -> 2 ^ 52 <= mr).
Proof.
  intros HA HD t mr.
  set (q0 := A / D). set (d := Zdigits2 q0).
  assert (Hq0 : 0 <= q0) by (apply Z.div_pos; lia).
  assert (Hd : 0 <= d) by apply Zdigits2_nonneg.
  assert (Ht : t = Z.max (d + E0 - 53) (-1074)) by reflexivity.
  set (n := t - E0).
  assert (Hn : 1074 <= n) by (unfold n, E0; lia).
  assert (P : 0 < 2 ^ n) by (apply pow2_pos; lia).
  assert (Hq : A / (D * 2 ^ n) = q0 / 2 ^ n)
    by (unfold q0; rewrite Z.div_div; lia).
  assert (B : q0 / 2 ^ n <= mr <= q0 / 2 ^ n + 1)
    by (rewrite <- Hq; apply rne_bounds).
  assert (Q0 : 0 <= q0 / 2 ^ n) by (apply Z.div_pos; lia).
  destruct (Z.le_gt_cases (-1074) (d + E0 - 53)) as [N|S].
  - (* normal *)
    assert (Tn : t = d + E0 - 53) by lia.
    assert (Nd : n = d - 53) by (unfold n; lia).
    assert (Pq : 0 < q0).
    { destruct (Z.eq_dec q0 0) as [Z|Z]; [|lia].
      unfold d in N. rewrite Z in N. simpl in N. unfold E0 in N. lia. }
    pose proof (Zdigits2_bounds q0 Pq) as [L U]. fold d in L, U.
    assert (E1 : 2 ^ (d - 1) = 2 ^ 52 * 2 ^ n)
      by (rewrite <- Z.pow_add_r by lia; f_equal; lia).
    assert (E2 : 2 ^ d = 2 ^ 53 * 2 ^ n)
      by (rewrite <- Z.pow_add_r by lia; f_equal; lia).
    assert (Lq : 2 ^ 52 <= q0 / 2 ^ n)
      by (apply Z.div_le_lower_bound; lia).
    assert (Uq : q0 / 2 ^ n < 2 ^ 53)
      by (apply Z.div_lt_upper_bound; lia).
    split; [lia|]. split; [|lia].
    intros [M1 M2].
    rewrite (Zdigits2_unique mr 53); [rewrite fexp_eq; lia| |lia].
    change (53 - 1) with 52. lia.
  - (* subnormal *)
    assert (Tn : t = -1074) by lia.
    assert (Nd : n = 1074) by (unfold n, E0; lia).
    assert (Uq : q0 / 2 ^ n < 2 ^ 52).
    { apply Z.div_lt_upper_bound; [lia|].
      destruct (Z.eq_dec q0 0) as [Z|Z].
      - rewrite Z. apply Z.mul_pos_pos; [|lia]. apply pow2_pos; lia.
      - pose proof (Zdigits2_bounds q0 ltac:(lia)) as [_ U]. fold d in U.
        rewrite <- Z.pow_add_r by lia.
        apply Z.lt_le_trans with (2 ^ d); [exact U|].
        apply Z.pow_le_mono_r; unfold E0 in *; lia. }
    split; [lia|]. split; [|lia].
    intros [M1 M2].
    assert (Zdigits2 mr <= 53).
    { apply digits_lt_pow2; lia. }
    pose proof (Zdigits2_nonneg mr).
    rewrite fexp_eq. lia.
Qed.

Lemma finish_round (s : bool) (A D : Z) :
  0 <= A -> 0 < D ->
  finish s (rne A (D * 2 ^ (cexp A D - E0))) (cexp A D) = round_pos s A D.
Proof.
  intros HA HD. unfold round_pos.
  destruct (rne_range A D HA HD) as ([L U] & C & _).
  pose proof (cexp_ge A D) as T.
  remember (rne A (D * 2 ^ (cexp A D - E0))) as mr.
  destruct (Z.eq_dec mr 0) as [->|N0]; [apply finish_zero; exact T|].
  destruct (Z.eq_dec mr (2 ^ 53)) as [->|N1]; [apply finish_carry; exact T|].
  apply finish_canonical; [lia|apply C; lia|lia].
Qed.

(** The exponent that the algorithm picks depends on the value only. *)
Lemma cexp_of_input (m e A D : Z) :
  0 <= A -> 0 < D -> E0 <= e ->
  m = A / (D * 2 ^ (e - E0)) ->
  e <= fexp prec emax (Zdigits2 m + e) ->
  fexp prec emax (Zdigits2 m + e) = cexp A D.
Proof.
  intros HA HD He Hm Hpre. unfold cexp. rewrite !fexp_eq in *.
  set (k := e - E0) in *. set (q0 := A / D).
  assert (P : 0 < 2 ^ k) by (apply pow2_pos; lia).
  assert (Hq0 : 0 <= q0) by (apply Z.div_pos; lia).
  assert (Hm' : m = q0 / 2 ^ k) by (unfold q0; rewrite Z.div_div; lia).
  pose proof (Z.div_mod q0 (2 ^ k) ltac:(lia)) as DM.
  pose proof (Z.mod_pos_bound q0 (2 ^ k) P) as MB. rewrite <- Hm' in DM.
  assert (M0 : 0 <= m) by (rewrite Hm'; apply Z.div_pos; lia).
  destruct (Z.eq_dec m 0) as [Z|NZ].
  - rewrite Z in *. rewrite Zdigits2_0 in *.
    assert (Zdigits2 q0 <= k) by (apply digits_lt_pow2; lia).
    pose proof (Zdigits2_nonneg q0).
    unfold k, E0 in *. lia.
  - pose proof (Zdigits2_bounds m ltac:(lia)) as [L U].
    assert (Dm : 1 <= Zdigits2 m).
    { destruct m; simpl; lia. }
    assert (Zdigits2 q0 = Zdigits2 m + k).
    { apply Zdigits2_unique; [|nia].
      replace (Zdigits2 m + k - 1) with ((Zdigits2 m - 1) + k) by lia.
      rewrite !Z.pow_add_r by lia. nia. }
    f_equal. lia.
Qed.

Theorem binary_round_aux_value (s : bool) (m e : Z) (l : location) (A D : Z) :
  0 <= A -> 0 < D -> E0 <= e ->
  m = A / (D * 2 ^ (e - E0)) ->
  l = loc_frac (A mod (D * 2 ^ (e - E0))) (D * 2 ^ (e - E0)) ->
  e <= fexp prec emax (Zdigits2 m + e) ->
  binary_round_aux prec emax s m e l = round_pos s A D.
Proof.
  intros HA HD He Hm Hl Hpre.
  assert (P : 0 < 2 ^ (e - E0)) by (apply pow2_pos; lia).
  rewrite (binary_round_aux_finish s m e l A (D * 2 ^ (e - E0)));
    try assumption; [|nia].
  pose proof (cexp_of_input m e A D HA HD He Hm Hpre) as C.
  rewrite C in Hpre |- *.
  rewrite <- Z.mul_assoc, <- Z.pow_add_r by (unfold E0 in *; lia).
  replace (e - E0 + (cexp A D - e)) with (cexp A D - E0) by lia.
  apply finish_round; assumption.
Qed.

Lemma out_cases (s : bool) (mr t : Z) :
  0 <= mr <= 2 ^ 53 ->
  (mr = 0 /\ out s mr t = S754_zero s) \/
  (0 < mr < 2 ^ 53 /\ out s mr t = fin s mr t) \/
  (mr = 2 ^ 53 /\ out s mr t = fin s (2 ^ 52) (t + 1)).
Proof.
  intros H. unfold out, fin. destruct mr as [|p|p]; try lia.
  - left. auto.
  - destruct (Z.ltb_spec (Z.pos p) (2 ^ 53)).
    + right; left. split; [lia|]. reflexivity.
    + right; right. split; [lia|]. reflexivity.
Qed.






Lemma fin_signed (s : bool) (m t : Z) : signed s (fin s m t).
Proof. unfold fin. destruct (t <=? 971); reflexivity. Qed.

Lemma round_pos_signed (s : bool) (A D : Z) :
  0 <= A -> 0 < D -> signed s (round_pos s A D).
Proof.
  intros HA HD. unfold round_pos.
  destruct (rne_range A D HA HD) as (B & _ & _).
  destruct (out_cases s _ (cexp A D) B) as [[_ ->]|[[_ ->]|[_ ->]]];
    [reflexivity|apply fin_signed|apply fin_signed].
Qed.


(** A value below 2^(k + E0) with k + E0 at most 1024 does not overflow. *)
Lemma round_pos_finite (s : bool) (A D k : Z) :
  0 <= A -> 0 < D -> 0 <= k -> A < D * 2 ^ k -> k + E0 - 53 <= 970 ->
  is_finite (round_pos s A D) = true.
Proof.
  intros HA HD Hk H K. unfold round_pos.
  destruct (rne_range A D HA HD) as (B & _ & _).
  assert (Q : A / D < 2 ^ k) by (apply Z.div_lt_upper_bound; lia).
  assert (Dg : Zdigits2 (A / D) <= k)
    by (apply digits_lt_pow2; [apply Z.div_pos; lia|lia|exact Q]).
  assert (T : cexp A D <= 970) by (unfold cexp; rewrite fexp_eq; lia).
  destruct (out_cases s _ (cexp A D) B) as [[_ ->]|[[_ ->]|[_ ->]]].
  - reflexivity.
  - unfold fin. destruct (Z.leb_spec (cexp A D) 971); [reflexivity|lia].
  - unfold fin. destruct (Z.leb_spec (cexp A D + 1) 971); [reflexivity|lia].
Qed.





Lemma RQ_pos (A D : Z) : 0 < A -> RQ A D = round_pos false A D.
Proof. destruct A; try lia. reflexivity. Qed.

Lemma RQ_neg (A D : Z) : 0 < A -> RQ (- A) D = round_pos true A D.
Proof. destruct A; try lia. reflexivity. Qed.

Lemma RQ_cond_Zopp (s : bool) (A D : Z) :
  0 < A -> RQ (cond_Zopp s A) D = round_pos s A D.
Proof. destruct s; simpl; [apply RQ_neg|apply RQ_pos]. Qed.

Lemma RQ_signed (N D : Z) :
  0 < D -> signed (N <? 0) (RQ N D).
Proof.
  intros HD. destruct N as [|p|p]; simpl.
  - reflexivity.
  - apply (round_pos_signed false); lia.
  - apply (round_pos_signed true); lia.
Qed.



(** *** Canonical numbers *)

Lemma valid_finite (s : bool) (m : positive) (e : Z) :
  valid (S754_finite s m e) = true ->
  -1074 <= e <= 971 /\ Z.pos m < 2 ^ 53 /\
  (e = -1074 \/ 2 ^ 52 <= Z.pos m) /\
  fexp prec emax (Zdigits2 (Z.pos m) + e) = e.
Proof.
  unfold valid, valid_binary, bounded, canonical_mantissa.
  intros H. apply andb_prop in H. destruct H as [C B].
  apply Z.eqb_eq in C. apply Z.leb_le in B.
  change (Z.pos (digits2_pos m)) with (Zdigits2 (Z.pos m)) in C.
  change (emax - prec) with 971 in B.
  pose proof (Zdigits2_bounds (Z.pos m) ltac:(lia)) as [L U].
  pose proof C as C'. rewrite fexp_eq in C'.
  split; [lia|]. split; [|split; [|exact C]].
  - apply Z.lt_le_trans with (1 := U). apply Z.pow_le_mono_r; lia.
  - destruct (Z.eq_dec e (-1074)) as [E|E]; [left; exact E|right].
    apply Z.le_trans with (2 := L). apply Z.pow_le_mono_r; lia.
Qed.




(** *** Multiplication by a normal positive constant *)

Lemma mul_finite_value (s : bool) (m : positive) (e : Z) (mc : positive)
  (ec : Z) :
  -1074 <= e -> -1074 <= ec -> 2 ^ 52 <= Z.pos mc ->
  mul (S754_finite s m e) (S754_finite false mc ec) =
  round_pos s (Z.pos m * Z.pos mc * 2 ^ (e + ec - E0)) 1.
Proof.
  intros He Hec Hmc. unfold mul, SFmul. rewrite xorb_false_r.
  assert (P : 0 < 2 ^ (e + ec - E0)) by (apply pow2_pos; unfold E0; lia).
  apply binary_round_aux_value.
  - nia.
  - lia.
  - unfold E0. lia.
  - rewrite Z.mul_1_l, Z.div_mul by lia. reflexivity.
  - rewrite Z.mul_1_l, Z.mod_mul by lia. reflexivity.
  - rewrite fexp_eq.
    assert (53 <= Zdigits2 (Z.pos (m * mc))).
    { change 53 with (52 + 1). rewrite <- (digits_pow2 52) by lia.
      apply Zdigits2_le; [lia|]. rewrite Pos2Z.inj_mul. nia. }
    lia.
Qed.

Lemma mul_value (x : float64) (mc : positive) (ec : Z) :
  valid x = true -> is_finite x = true ->
  -1074 <= ec -> 2 ^ 52 <= Z.pos mc ->
  eqz (mul x (S754_finite false mc ec))
      (RQ (sval x * (Z.pos mc * 2 ^ (ec + 1074))) 1).
Proof.
  intros V F Hec Hmc.
  destruct x as [s|s| |s m e]; try discriminate.
  - right. exists (xorb s false), false. split; reflexivity.
  - left. destruct (valid_finite _ _ _ V) as (E & _).
    rewrite mul_finite_value by lia.
    assert (P1 : 0 < 2 ^ (e + 1074)) by (apply pow2_pos; lia).
    assert (P2 : 0 < 2 ^ (ec + 1074)) by (apply pow2_pos; lia).
    cbn [sval].
    replace (cond_Zopp s (Z.pos m * 2 ^ (e + 1074)) * (Z.pos mc * 2 ^ (ec + 1074)))
      with (cond_Zopp s (Z.pos m * Z.pos mc * 2 ^ (e + ec - E0))).
    + symmetry. apply RQ_cond_Zopp.
      assert (0 < 2 ^ (e + ec - E0)) by (apply pow2_pos; unfold E0; lia).
      nia.
    + replace (e + ec - E0) with ((e + 1074) + (ec + 1074))
        by (unfold E0; lia).
      rewrite Z.pow_add_r by lia. destruct s; cbn [cond_Zopp]; ring.
Qed.

(** *** Division by a positive number *)

Lemma loc_frac_scale (r D k : Z) :
  0 < D -> 0 < k -> 0 <= r -> loc_frac (r * k) (D * k) = loc_frac r D.
Proof.
  intros HD Hk Hr. unfold loc_frac.
  destruct (Z.eqb_spec r 0) as [E|E].
  - rewrite E. reflexivity.
  - destruct (Z.eqb_spec (r * k) 0) as [E'|E']; [nia|].
    f_equal.
    destruct (Z.compare_spec (2 * r) D);
      destruct (Z.compare_spec (2 * (r * k)) (D * k));
      try reflexivity; nia.
Qed.

Lemma new_location_frac (D r : Z) :
  0 < D -> 0 <= r < D -> new_location D r = loc_frac r D.
Proof.
  intros HD Hr. unfold new_location, new_location_even, new_location_odd,
    loc_frac.
  destruct (Z.even D) eqn:Ev; [reflexivity|].
  destruct (Z.eqb_spec r 0); [reflexivity|]. f_equal.
  assert (O : Z.odd D = true) by (rewrite <- Z.negb_even, Ev; reflexivity).
  apply Z.odd_spec in O. destruct O as [h O].
  destruct (Z.compare_spec (2 * r + 1) D); destruct (Z.compare_spec (2 * r) D);
    try reflexivity; lia.
Qed.

Lemma div_core_value (m1 : positive) (e1 : Z) (m2 : positive) (e2 : Z) :
  let e' := Z.min (fexp prec emax
                     (Zdigits2 (Z.pos m1) + e1 - (Zdigits2 (Z.pos m2) + e2)))
              (e1 - e2) in
  let m' := Z.pos m1 * 2 ^ (e1 - e2 - e') in
  SFdiv_core_binary prec emax (Z.pos m1) e1 (Z.pos m2) e2 =
  (m' / Z.pos m2, e', loc_frac (m' mod Z.pos m2) (Z.pos m2)).
Proof.
  intros e' m'. unfold SFdiv_core_binary. fold e'.
  assert (S : 0 <= e1 - e2 - e') by (unfold e'; lia).
  assert (M : match e1 - e2 - e' with
              | Z.pos _ => Z.shiftl (Z.pos m1) (e1 - e2 - e')
              | 0 => Z.pos m1
              | Z.neg _ => 0
              end = m').
  { unfold m'. destruct (e1 - e2 - e') as [|p|p] eqn:E; try lia.
    apply Z.shiftl_mul_pow2. lia. }
  rewrite M.
  assert (Pm : 0 <= m').
  { unfold m'. pose proof (pow2_pos _ S). nia. }
  unfold Z.div, Z.modulo.
  pose proof (Z.mod_pos_bound m' (Z.pos m2) ltac:(lia)) as B.
  unfold Z.modulo in B.
  destruct (Z.div_eucl m' (Z.pos m2)) as [q r].
  rewrite new_location_frac by lia. reflexivity.
Qed.

Lemma div_finite_value (s : bool) (m : positive) (e : Z) (ml : positive)
  (el : Z) :
  -1074 <= e -> el <= 971 ->
  div (S754_finite s m e) (S754_finite false ml el) =
  round_pos s (Z.pos m * 2 ^ (e - el - E0)) (Z.pos ml).
Proof.
  intros He Hel. unfold div, SFdiv. rewrite xorb_false_r.
  rewrite div_core_value.
  set (d1 := Zdigits2 (Z.pos m)). set (d2 := Zdigits2 (Z.pos ml)).
  set (e' := Z.min (fexp prec emax (d1 + e - (d2 + el))) (e - el)).
  set (m' := Z.pos m * 2 ^ (e - el - e')).
  assert (Ee : E0 <= e' <= e - el)
    by (unfold e', E0; rewrite fexp_eq; lia).
  assert (Ps : 0 < 2 ^ (e - el - e')) by (apply pow2_pos; lia).
  assert (Pk : 0 < 2 ^ (e' - E0)) by (apply pow2_pos; lia).
  assert (EA : Z.pos m * 2 ^ (e - el - E0) = m' * 2 ^ (e' - E0)).
  { unfold m'. rewrite <- Z.mul_assoc, <- Z.pow_add_r by lia.
    do 2 f_equal. lia. }
  assert (Pm : 0 < m') by (unfold m'; nia).
  apply binary_round_aux_value.
  - rewrite EA. nia.
  - lia.
  - lia.
  - rewrite EA. rewrite Z.div_mul_cancel_r by lia. reflexivity.
  - rewrite EA. rewrite Z.mul_mod_distr_r by lia.
    pose proof (Z.mod_pos_bound m' (Z.pos ml) ltac:(lia)).
    rewrite loc_frac_scale by lia. reflexivity.
  - rewrite fexp_eq.
    destruct (Z.le_gt_cases e' (-1074)) as [L|G]; [lia|].
    assert (S : 53 + d2 - d1 <= e - el - e')
      by (unfold e' in *; rewrite fexp_eq in *; lia).
    pose proof (Zdigits2_bounds (Z.pos m) ltac:(lia)) as [L1 _].
    pose proof (Zdigits2_bounds (Z.pos ml) ltac:(lia)) as [_ U2].
    fold d1 in L1. fold d2 in U2.
    assert (D1 : 1 <= d1) by (unfold d1; simpl; lia).
    assert (D2 : 1 <= d2) by (unfold d2; simpl; lia).
    assert (B : 2 ^ 52 * 2 ^ d2 <= m').
    { unfold m'.
      apply Z.le_trans with (2 ^ (d1 - 1) * 2 ^ (e - el - e')); [|nia].
      rewrite <- !Z.pow_add_r by lia. apply Z.pow_le_mono_r; lia. }
    assert (Q : 2 ^ 52 <= m' / Z.pos ml).
    { apply Z.div_le_lower_bound; [lia|].
      assert (0 < 2 ^ 52) by reflexivity. nia. }
    assert (53 <= Zdigits2 (m' / Z.pos ml)).
    { change 53 with (52 + 1). rewrite <- (digits_pow2 52) by lia.
      apply Zdigits2_le; lia. }
    lia.
Qed.

Lemma div_value (x : float64) (ml : positive) (el : Z) :
  valid x = true -> is_finite x = true ->
  valid (S754_finite false ml el) = true ->
  eqz (div x (S754_finite false ml el))
      (RQ (sval x * 2 ^ (1074 - el)) (Z.pos ml)).
Proof.
  intros V F Vl. destruct (valid_finite _ _ _ Vl) as (El & _).
  destruct x as [s|s| |s m e]; try discriminate.
  - right. exists (xorb s false), false. split; reflexivity.
  - left. destruct (valid_finite _ _ _ V) as (E & _).
    rewrite div_finite_value by lia.
    assert (P1 : 0 < 2 ^ (e + 1074)) by (apply pow2_pos; lia).
    assert (P2 : 0 < 2 ^ (1074 - el)) by (apply pow2_pos; lia).
    cbn [sval].
    replace (cond_Zopp s (Z.pos m * 2 ^ (e + 1074)) * 2 ^ (1074 - el))
      with (cond_Zopp s (Z.pos m * 2 ^ (e - el - E0))).
    + symmetry. apply RQ_cond_Zopp.
      assert (0 < 2 ^ (e - el - E0)) by (apply pow2_pos; unfold E0; lia).
      nia.
    + replace (e - el - E0) with ((e + 1074) + (1074 - el))
        by (unfold E0; lia).
      rewrite Z.pow_add_r by lia. destruct s; cbn [cond_Zopp]; ring.
Qed.

(** *** Addition *)










(** ** Monotonicity of the operations *)


Lemma leb_refl (x : float64) : is_nan x = false -> leb x x = true.
Proof.
  unfold leb, SFleb.
  destruct x as [[]|[]| |[] m e]; simpl; try discriminate; try reflexivity;
    fold_pos_compare; rewrite Z.compare_refl, Pos.compare_refl; reflexivity.
Qed.






Lemma eqz_is_nan (a b : float64) : eqz a b -> is_nan a = is_nan b.
Proof. intros [-> | (s & s' & -> & ->)]; auto. Qed.

Lemma eqz_is_finite (a b : float64) : eqz a b -> is_finite a = is_finite b.
Proof. intros [-> | (s & s' & -> & ->)]; auto. Qed.

Lemma signed_not_nan (s : bool) (r : float64) : signed s r -> is_nan r = false.
Proof. destruct r; simpl; try contradiction; reflexivity. Qed.

Lemma RQ_not_nan (N D : Z) : 0 < D -> is_nan (RQ N D) = false.
Proof. intros H. eapply signed_not_nan, RQ_signed, H. Qed.


Section Constant.

Variables (mc : positive) (ec : Z).
Hypothesis Hec : -1074 <= ec.
Hypothesis Hmc : 2 ^ 52 <= Z.pos mc.





End Constant.

(** Division by a positive number, in the numerator. *)
Lemma gtb_zero_valid_cases (l : float64) :
  gtb l zero = true ->
  l = S754_infinity false \/ exists m e, l = S754_finite false m e.
Proof.
  destruct l as [[]|[]| |[] m e]; simpl; try discriminate; eauto.
Qed.

Lemma div_pos_not_nan (x l : float64) :
  valid x = true -> valid l = true -> is_finite x = true ->
  gtb l zero = true -> is_nan (div x l) = false.
Proof.
  intros Vx Vl Fx Hl.
  destruct (gtb_zero_valid_cases l Hl) as [-> | (ml & el & ->)].
  - destruct x as [s|s| |s m e]; try discriminate; reflexivity.
  - rewrite (eqz_is_nan _ _ (div_value x ml el Vx Fx Vl)).
    apply RQ_not_nan. lia.
Qed.







(** *** No overflow below one *)

Lemma sval_bound (x : float64) :
  valid x = true -> - 2 ^ 2098 < sval x < 2 ^ 2098.
Proof.
  intros V.
  assert (B : 2 ^ 53 * 2 ^ 2045 <= 2 ^ 2098).
  { change 2098 with (53 + 2045). rewrite Z.pow_add_r by lia.
    apply Z.le_refl. }
  assert (P : 0 < 2 ^ 2045) by (apply pow2_pos; lia).
  destruct x as [s|s| |s m e]; cbn [sval];
    try (revert B P; generalize (2 ^ 2098); generalize (2 ^ 2045); lia).
  destruct (valid_finite _ _ _ V) as (E & U & _).
  assert (L : 2 ^ (e + 1074) <= 2 ^ 2045)
    by (apply Z.pow_le_mono_r; lia).
  pose proof (pow2_pos (e + 1074) ltac:(lia)) as Pe.
  revert B P L. generalize (2 ^ 2098). generalize (2 ^ 2045).
  intros Q R B P L.
  assert (M : 0 < Z.pos m * 2 ^ (e + 1074) < R).
  { split; [nia|].
    apply Z.lt_le_trans with (2 ^ 53 * Q); [|exact B].
    apply Z.le_lt_trans with (Z.pos m * Q).
    - apply Z.mul_le_mono_nonneg_l; lia.
    - apply Z.mul_lt_mono_pos_r; lia. }
  destruct s; cbn [cond_Zopp]; lia.
Qed.

Lemma RQ_finite (N D k : Z) :
  0 < D -> 0 <= k -> - (D * 2 ^ k) < N < D * 2 ^ k -> k + E0 - 53 <= 970 ->
  is_finite (RQ N D) = true.
Proof.
  intros HD Hk H K. destruct N as [|p|p]; unfold RQ.
  - reflexivity.
  - apply round_pos_finite with k; lia.
  - apply round_pos_finite with k; lia.
Qed.

Lemma mul_const_finite (x : float64) (mc : positive) (ec : Z) :
  valid x = true -> is_finite x = true ->
  -1074 <= ec <= -54 -> 2 ^ 52 <= Z.pos mc < 2 ^ 53 ->
  is_finite (mul x (S754_finite false mc ec)) = true.
Proof.
  intros V F Hec Hmc.
  rewrite (eqz_is_finite _ _ (mul_value x mc ec V F ltac:(lia) ltac:(lia))).
  pose proof (sval_bound x V) as B.
  assert (P1 : 0 < 2 ^ (ec + 1074)) by (apply pow2_pos; lia).
  assert (C : Z.pos mc * 2 ^ (ec + 1074) <= 2 ^ 1073).
  { apply Z.le_trans with (2 ^ 53 * 2 ^ (ec + 1074)).
    - apply Z.mul_le_mono_nonneg_r; lia.
    - rewrite <- Z.pow_add_r by lia. apply Z.pow_le_mono_r; lia. }
  assert (P3 : 0 < Z.pos mc * 2 ^ (ec + 1074))
    by (apply Z.mul_pos_pos; lia).
  apply RQ_finite with 3171; [lia|lia| |unfold E0; lia].
  rewrite Z.mul_1_l. change 3171 with (2098 + 1073).
  rewrite Z.pow_add_r by lia.
  revert B C P3. generalize (Z.pos mc * 2 ^ (ec + 1074)).
  generalize (sval x). generalize (2 ^ 2098). generalize (2 ^ 1073).
  intros Q P v K B C P3.
  assert (H1 : v * K < P * K) by (apply Z.mul_lt_mono_pos_r; lia).
  assert (H2 : - P * K < v * K) by (apply Z.mul_lt_mono_pos_r; lia).
  assert (H3 : P * K <= P * Q) by (apply Z.mul_le_mono_nonneg_l; lia).
  lia.
Qed.

(** ** The risk score is monotone *)




End RoundingFacts.

(** ** Division by zero, row by row *)

Section DivisionByZero.

(** The age term of a finite age is finite: 0.01 is below one. *)
Lemma age_term_finite (age : float64) :
  valid age = true -> is_finite age = true ->
  is_finite (mul age lit_0_01) = true.
Proof.
  intros V F. apply mul_const_finite; try assumption.
  - lia.
  - change (2 ^ 52)%Z with 4503599627370496%Z.
    change (2 ^ 53)%Z with 9007199254740992%Z. lia.
Qed.

(** C7, as stated, fails on a row whose loan amount is the zero -0.0: with
    income 3000 the ratio is minus infinity and the risk score clips to 0,
    not to 1. *)
Lemma negative_zero_loan_amount_clips_to_zero :
  let df := borrowers [(of_Z 40, of_Z 3000, nzero, "Accra"%string)] in
  exists df',
    feature_engineering df = Ok df' /\
    eqb nzero zero = true /\
    gtb (of_Z 3000) zero = true /\
    cell df' "income_to_loan_ratio" 0 = Some (Num ninf) /\
    cell df' "risk_score" 0 = Some (Num zero) /\
    zero <> one.
Proof.
  eexists. split; [vm_compute; reflexivity|].
  repeat split; try reflexivity. discriminate.
Qed.

(** C7, amended: in every row with [loan_amount == 0] the ratio is NaN or
    infinite, the division being unguarded. With [income > 0] the ratio is
    plus infinity for the loan amount 0.0 and the risk score clips to 1,
    and it is minus infinity for the loan amount -0.0 and the risk score
    clips to 0, in both cases provided [age * 0.01] is a number other than
    the opposite infinity, as it is for every finite age. With
    [income == 0] the ratio and the risk score are NaN. *)
Theorem division_by_zero_rows (df df' : DataFrame) (i : nat)
  (income loan_amount age : float64) :
  feature_engineering df = Ok df' ->
  cell df "income" i = Some (Num income) ->
  cell df "loan_amount" i = Some (Num loan_amount) ->
  cell df "age" i = Some (Num age) ->
  eqb loan_amount zero = true ->
  let ratio := div income loan_amount in
  let score := Np.clip (add (mul ratio lit_0_3) (mul age lit_0_01)) zero one in
  cell df' "income_to_loan_ratio" i = Some (Num ratio) /\
  cell df' "risk_score" i = Some (Num score) /\
  (is_nan ratio = true \/ is_inf ratio = true) /\
  (gtb income zero = true ->
     (loan_amount = pzero ->
        ratio = pinf /\
        (is_nan (mul age lit_0_01) = false -> mul age lit_0_01 <> ninf ->
         score = one) /\
        (valid age = true -> is_finite age = true -> score = one)) /\
     (loan_amount = nzero ->
        ratio = ninf /\
        (is_nan (mul age lit_0_01) = false -> mul age lit_0_01 <> pinf ->
         score = zero) /\
        (valid age = true -> is_finite age = true -> score = zero))) /\
  (eqb income zero = true -> ratio = nan /\ score = nan).
Proof.
  intros H Hi Hl Ha Hz ratio score.
  destruct (feature_engineering_row _ _ _ _ _ _ H Hi Hl Ha)
    as (_ & _ & _ & Hr & Hs & _).
  split; [exact Hr|]. split; [exact Hs|].
  subst ratio score. clear - Hz.
  destruct (eqb_zero_cases _ Hz) as [-> | ->].
  - split; [destruct income as [[]|[]| |[] m e]; simpl; auto|].
    split.
    + intros Hp. split; [|intros [=]].
      intros _.
      assert (E : div income pzero = pinf)
        by (destruct (gtb_zero_cases _ Hp) as [-> | (m & e & ->)]; reflexivity).
      rewrite E. split; [reflexivity|]. split; [apply score_of_pinf|].
      intros Va Fa. pose proof (age_term_finite age Va Fa) as F.
      apply score_of_pinf; destruct (mul age lit_0_01); try discriminate;
        reflexivity.
    + intros He. destruct (eqb_zero_cases _ He) as [-> | ->];
        split; reflexivity.
  - split; [destruct income as [[]|[]| |[] m e]; simpl; auto|].
    split.
    + intros Hp. split; [intros [=]|].
      intros _.
      assert (E : div income nzero = ninf)
        by (destruct (gtb_zero_cases _ Hp) as [-> | (m & e & ->)]; reflexivity).
      rewrite E. split; [reflexivity|]. split; [apply score_of_ninf|].
      intros Va Fa. pose proof (age_term_finite age Va Fa) as F.
      apply score_of_ninf; destruct (mul age lit_0_01); try discriminate;
        reflexivity.
    + intros He. destruct (eqb_zero_cases _ He) as [-> | ->];
        split; reflexivity.
Qed.

Lemma division_by_zero_rows_witness :
  let df := borrowers [(of_Z 30, of_Z 5000, of_Z 0, "Accra"%string)] in
  let ratio := div (of_Z 5000) (of_Z 0) in
  let score :=
    Np.clip (add (mul ratio lit_0_3) (mul (of_Z 30) lit_0_01)) zero one in
  cell (engineered df) "income_to_loan_ratio" 0 = Some (Num ratio) /\
  cell (engineered df) "risk_score" 0 = Some (Num score) /\
  (is_nan ratio = true \/ is_inf ratio = true) /\
  (gtb (of_Z 5000) zero = true ->
     (of_Z 0 = pzero ->
        ratio = pinf /\
        (is_nan (mul (of_Z 30) lit_0_01) = false ->
         mul (of_Z 30) lit_0_01 <> ninf -> score = one) /\
        (valid (of_Z 30) = true -> is_finite (of_Z 30) = true ->
         score = one)) /\
     (of_Z 0 = nzero ->
        ratio = ninf /\
        (is_nan (mul (of_Z 30) lit_0_01) = false ->
         mul (of_Z 30) lit_0_01 <> pinf -> score = zero) /\
        (valid (of_Z 30) = true -> is_finite (of_Z 30) = true ->
         score = zero))) /\
  (eqb (of_Z 5000) zero = true -> ratio = nan /\ score = nan).
Proof.
  intros df.
  exact (division_by_zero_rows df (engineered df) 0
           (of_Z 5000) (of_Z 0) (of_Z 30)
           eq_refl eq_refl eq_refl eq_refl eq_refl).
Defined.

End DivisionByZero.

(** ** The risk score is monotone in age and in income *)

Section Monotone.




End Monotone.

(** * More of the page *)

(** ** Rows by position *)

Section RowsAt.

Lemma rows_of_positions (idx : list nat) :
  forall cols : list (string * list scalar),
    rows_of idx cols =
    map (fun i => (nth i idx O,
                   map (fun nc => (fst nc, nth i (snd nc) (Num nan))) cols))
      (seq 0 (List.length idx)).
Proof.
  induction idx as [|l idx IH]; intros cols; [reflexivity|].
  cbn [rows_of List.length seq]. rewrite <- seq_shift. cbn [map nth].
  f_equal.
  - f_equal. unfold heads. apply map_ext. intros [n [|x xs]]; reflexivity.
  - rewrite IH, map_map. apply map_ext. intros i. f_equal.
    unfold tails. rewrite map_map. apply map_ext.
    intros [n [|x xs]]; simpl; [destruct i|]; reflexivity.
Qed.

Lemma rows_positions (df : DataFrame) :
  rows df = map (row_at df) (seq 0 (List.length (index df))).
Proof.
  unfold rows. rewrite rows_of_positions. apply map_ext. intros i.
  unfold row_at. f_equal. rewrite map_map. reflexivity.
Qed.

Lemma In_rows (df : DataFrame) (r : row) :
  In r (rows df) <->
  exists i, (i < List.length (index df))%nat /\ r = row_at df i.
Proof.
  rewrite rows_positions, in_map_iff. split.
  - intros (i & <- & H). apply in_seq in H. exists i. split; [lia|reflexivity].
  - intros (i & H & ->). exists i. split; [reflexivity|]. apply in_seq. lia.
Qed.

Lemma nth_error_rows (df : DataFrame) (i : nat) :
  (i < List.length (index df))%nat ->
  nth_error (rows df) i = Some (row_at df i).
Proof.
  intros H. rewrite rows_positions, nth_error_map.
  rewrite (nth_error_nth' _ O) by (rewrite length_seq; exact H).
  rewrite seq_nth by exact H. reflexivity.
Qed.

Lemma field_row_at (df : DataFrame) (name : string) (i : nat) :
  field name (snd (row_at df i)) =
  option_map (fun c => nth i (cells c) (Num nan)) (lookup name (columns df)).
Proof.
  unfold field, row_at. cbn [snd].
  apply (lookup_map_snd (fun c => nth i (cells c) (Num nan))).
Qed.

(** The named cell of the row at a position is the cell of the column at
    that position. *)
Lemma field_row_at_cell (df : DataFrame) (name : string) (i : nat) :
  wf df -> (i < List.length (index df))%nat ->
  field name (snd (row_at df i)) = cell df name i.
Proof.
  intros Hw Hi. rewrite field_row_at. unfold cell.
  destruct (lookup name (columns df)) as [c|] eqn:E; [|reflexivity].
  simpl. symmetry. apply nth_error_nth'.
  pose proof (lookup_size _ _ _ Hw E) as S. unfold size in S. lia.
Qed.

Lemma cells_take_column (ps : list nat) (c : column) :
  cells (take_column ps c) = map (fun p => nth p (cells c) (Num nan)) ps.
Proof.
  destruct c as [xs|xs|xs]; simpl; [|reflexivity|]; rewrite map_map;
    apply map_ext; intros p.
  - symmetry. apply (map_nth Num).
  - symmetry.
    exact (map_nth (fun l : option string =>
                      match l with Some s => Str s | None => Num nan end)
             xs None p).
Qed.

Lemma rows_of_taken (g : nat -> nat) (ps : list nat) :
  forall (cols : list (string * list scalar)),
    rows_of (map g ps)
      (map (fun nc => (fst nc, map (fun p => nth p (snd nc) (Num nan)) ps))
         cols)
    = map (fun p => (g p,
                     map (fun nc => (fst nc, nth p (snd nc) (Num nan))) cols))
        ps.
Proof.
  induction ps as [|p ps IH]; intros cols; [reflexivity|].
  cbn [map rows_of]. f_equal.
  - f_equal. unfold heads. rewrite map_map. reflexivity.
  - rewrite <- IH. f_equal. unfold tails. rewrite map_map. reflexivity.
Qed.

(** The rows of [take] are the rows at the positions taken. *)
Lemma rows_take (ps : list nat) (df : DataFrame) :
  rows (take ps df) = map (row_at df) ps.
Proof.
  unfold rows, take. cbn [index columns]. rewrite map_map. cbn [fst snd].
  transitivity
    (rows_of (map (fun p => nth p (index df) O) ps)
       (map (fun nc => (fst nc,
                        map (fun p => nth p (snd nc) (Num nan)) ps))
          (map (fun nc => (fst nc, cells (snd nc))) (columns df)))).
  - f_equal. rewrite map_map. apply map_ext. intros [n c]. cbn [fst snd].
    rewrite cells_take_column. reflexivity.
  - rewrite rows_of_taken. apply map_ext. intros p. unfold row_at.
    rewrite map_map. reflexivity.
Qed.

Lemma cells_head_column (n : nat) (c : column) :
  cells (head_column n c) = firstn n (cells c).
Proof. destruct c; simpl; rewrite ?firstn_map; reflexivity. Qed.

Lemma rows_of_firstn (n : nat) :
  forall (idx : list nat) (cols : list (string * list scalar)),
    rows_of (firstn n idx) (map (fun nc => (fst nc, firstn n (snd nc))) cols)
    = firstn n (rows_of idx cols).
Proof.
  induction n as [|n IH]; intros idx cols; [reflexivity|].
  destruct idx as [|l idx]; [reflexivity|].
  cbn [firstn rows_of]. f_equal.
  - f_equal. unfold heads. rewrite map_map. apply map_ext.
    intros [m [|x xs]]; reflexivity.
  - rewrite <- IH. f_equal. unfold tails. rewrite !map_map. apply map_ext.
    intros [m [|x xs]]; simpl; [destruct n|]; reflexivity.
Qed.

(** The rows of [head] are the first rows. *)
Lemma rows_head (n : nat) (df : DataFrame) :
  rows (head n df) = firstn n (rows df).
Proof.
  unfold rows, head. cbn [index columns]. rewrite <- rows_of_firstn.
  f_equal. rewrite !map_map. apply map_ext. intros [m c]. cbn [fst snd].
  rewrite cells_head_column. reflexivity.
Qed.

End RowsAt.

(** ** From the loaded file to the table shown *)

Section Pipeline.

Lemma lookup_In_names {A : Type} (name : string) (l : list (string * A)) :
  In name (map fst l) <-> exists a, lookup name l = Some a.
Proof.
  induction l as [|[n a] l IH]; simpl.
  - split; [contradiction|intros [a H]; discriminate].
  - destruct (String.eqb n name) eqn:E.
    + apply String.eqb_eq in E. split; eauto.
    + apply String.eqb_neq in E. rewrite <- IH. tauto.
Qed.

(** Validation passes exactly when the seven columns are there. *)
Lemma missing_cols_nil (df : DataFrame) :
  missing_cols df = [] <->
  forall c, In c required_columns -> In c (column_names df).
Proof.
  split.
  - intros M c Hc.
    destruct (existsb (String.eqb c) (column_names df)) eqn:E.
    + apply existsb_eqb_In, E.
    + exfalso. assert (H : In c (missing_cols df)).
      { unfold missing_cols. apply filter_In. rewrite E. auto. }
      rewrite M in H. exact H.
  - intros H. destruct (missing_cols df) as [|m ms] eqn:M; [reflexivity|].
    exfalso. assert (Hm : In m (missing_cols df)) by (rewrite M; simpl; auto).
    apply missing_cols_spec in Hm. destruct Hm as [A B]. auto.
Qed.


Lemma required_lookups (df : DataFrame) :
  (forall c, In c required_columns -> In c (column_names df)) ->
  exists ci cl ca cr,
    lookup "income" (columns df) = Some ci /\
    lookup "loan_amount" (columns df) = Some cl /\
    lookup "age" (columns df) = Some ca /\
    lookup "region" (columns df) = Some cr.
Proof.
  intros H.
  assert (L : forall c, In c required_columns ->
                        exists a, lookup c (columns df) = Some a)
    by (intros c Hc; apply lookup_In_names, H, Hc).
  destruct (L "income"%string) as [ci Hi]; [simpl; tauto|].
  destruct (L "loan_amount"%string) as [cl Hl]; [simpl; tauto|].
  destruct (L "age"%string) as [ca Ha]; [simpl; tauto|].
  destruct (L "region"%string) as [cr Hr]; [simpl; tauto|].
  exists ci, cl, ca, cr. auto.
Qed.

Lemma derived_region (df : DataFrame) (income loan_amount age : list float64) :
  lookup "region" (columns (derived df income loan_amount age)) =
  lookup "region" (columns df).
Proof.
  apply derived_lookup_other. apply required_not_derived. simpl. tauto.
Qed.

Lemma prepare_shown_inv (df shown : DataFrame) (selected_regions : list scalar) :
  prepare (Loaded df) selected_regions = Shown shown ->
  exists df',
    feature_engineering df = Ok df' /\
    region_filter selected_regions df' = Ok shown.
Proof.
  unfold prepare. destruct (missing_cols df); [|discriminate].
  destruct (feature_engineering df) as [df'|[]]; try discriminate.
  destruct (region_filter selected_regions df') as [df''|] eqn:E;
    [|discriminate].
  intros [= <-]. exists df'. auto.
Qed.

Lemma region_filter_In (selected_regions : list scalar) (df df' : DataFrame)
  (r : row) :
  wf df -> region_filter selected_regions df = Ok df' ->
  In r (rows df') -> In r (rows df).
Proof.
  intros Hw H. destruct (region_filter_selects _ _ _ Hw H) as (_ & He & Hn).
  destruct selected_regions as [|v vs].
  - rewrite (He eq_refl). trivial.
  - rewrite Hn by discriminate. intros Hr. apply filter_In in Hr. tauto.
Qed.

(** Selecting rows keeps the labels apart. *)
Lemma NoDup_select {A : Type} (mask : list bool) :
  forall xs : list A, NoDup xs -> NoDup (select mask xs).
Proof.
  induction mask as [|b mask IH]; intros xs H; [constructor|].
  destruct xs as [|x xs]; [constructor|]. inversion H as [|? ? Hx Hxs]. subst.
  destruct b; simpl; [constructor|]; auto.
  intros Hin. apply Hx. apply (select_In _ _ _ Hin).
Qed.

Lemma region_filter_index (selected_regions : list scalar)
  (df df' : DataFrame) :
  region_filter selected_regions df = Ok df' ->
  column_names df' = column_names df /\
  (forall l, In l (index df') -> In l (index df)) /\
  (NoDup (index df) -> NoDup (index df')).
Proof.
  unfold region_filter, getitem.
  destruct (lookup "region" (columns df)) as [region|]; [|discriminate].
  simpl. destruct selected_regions as [|v vs]; intros [= <-]; auto.
  unfold select_rows, column_names. simpl. split; [|split].
  - rewrite map_map. reflexivity.
  - intros l. apply select_In.
  - apply NoDup_select.
Qed.



(** X2: a file with the seven required columns whose age, income and
    loan amount are numeric is always shown, whatever regions are
    selected: nothing stops the script and nothing is raised. The table
    shown has one cell per row in every column, carries labels of the
    loaded table only, distinct where those were, and has the columns of
    the file and the three derived ones. *)
Theorem numeric_table_is_shown (df : DataFrame)
  (selected_regions : list scalar) (income loan_amount age : list float64) :
  wf df ->
  (forall c, In c required_columns -> In c (column_names df)) ->
  lookup "income" (columns df) = Some (Float64 income) ->
  lookup "loan_amount" (columns df) = Some (Float64 loan_amount) ->
  lookup "age" (columns df) = Some (Float64 age) ->
  exists shown,
    prepare (Loaded df) selected_regions = Shown shown /\
    wf shown /\
    (forall l, In l (index shown) -> In l (index df)) /\
    (NoDup (index df) -> NoDup (index shown)) /\
    (forall n, In n (column_names shown) <->
               In n (column_names df) \/ In n derived_names).
Proof.
  intros Hw H Hi Hl Ha.
  destruct (required_lookups df H) as (_ & _ & _ & cr & _ & _ & _ & Hr).
  pose proof (feature_engineering_complete df _ _ _ Hi Hl Ha) as F.
  assert (G : exists shown,
             region_filter selected_regions
               (derived df income loan_amount age) = Ok shown).
  { unfold region_filter, getitem. rewrite derived_region, Hr. simpl.
    destruct selected_regions; eauto. }
  destruct G as [shown G]. exists shown. split.
  { unfold prepare. rewrite (proj2 (missing_cols_nil df) H), F, G.
    reflexivity. }
  pose proof (wf_feature_engineering _ _ Hw F) as Hw'.
  destruct (region_filter_selects _ _ _ Hw' G) as (Hs & _).
  destruct (region_filter_index _ _ _ G) as (Hn & Hx & Hd).
  split; [exact Hs|]. split; [exact Hx|]. split; [exact Hd|].
  intros n. rewrite Hn. unfold column_names, derived, setitem. simpl.
  rewrite !assign_names. unfold derived_names. simpl. split.
  - intros [[[K|K]|K]|K]; auto.
  - intros [K|[K|[K|[K|[]]]]]; auto.
Qed.

Lemma numeric_table_is_shown_witness :
  let df := borrowers [(of_Z 40, of_Z 3000, of_Z 10000, "Accra"%string)] in
  exists shown,
    prepare (Loaded df) [Str "Accra"] = Shown shown /\
    wf shown /\
    (forall l, In l (index shown) -> In l (index df)) /\
    (NoDup (index df) -> NoDup (index shown)) /\
    (forall n, In n (column_names shown) <->
               In n (column_names df) \/ In n derived_names).
Proof.
  intros df.
  refine (numeric_table_is_shown df [Str "Accra"] _ _ _ (wf_borrowers _) _
            eq_refl eq_refl eq_refl).
  intros c Hc. simpl in Hc. simpl.
  repeat (destruct Hc as [<-|Hc]; [tauto|]). contradiction.
Defined.



Lemma lookup_select_rows (mask : list bool) (df : DataFrame) (name : string) :
  lookup name (columns (select_rows mask df)) =
  option_map (select_column mask) (lookup name (columns df)).
Proof. unfold select_rows. simpl. apply lookup_map_snd. Qed.

Lemma derived_score_level (df : DataFrame)
  (income loan_amount age : list float64) :
  let score := score_column (ratio_column income loan_amount) age in
  lookup "risk_score" (columns (derived df income loan_amount age)) =
    Some (Float64 score) /\
  lookup "risk_level" (columns (derived df income loan_amount age)) =
    Some (Category (map level_of score)).
Proof.
  unfold derived, setitem; simpl. split.
  - rewrite (lookup_assign_other "risk_level" "risk_score") by reflexivity.
    apply lookup_assign_same.
  - apply lookup_assign_same.
Qed.

Lemma clipped_clip (x : float64) : clipped (Np.clip x zero one).
Proof.
  unfold clipped. destruct (is_nan x) eqn:E.
  - left. rewrite clip_is_nan. exact E.
  - right. apply clip_bounds, E.
Qed.

Lemma score_column_clipped (ratio age : list float64) :
  Forall clipped (score_column ratio age).
Proof.
  unfold score_column. apply Forall_forall. intros s Hs.
  apply in_map_iff in Hs. destruct Hs as (x & <- & _). apply clipped_clip.
Qed.

Lemma Forall_select {A : Type} (P : A -> Prop) (mask : list bool)
  (xs : list A) :
  Forall P xs -> Forall P (select mask xs).
Proof.
  rewrite !Forall_forall. intros H x Hx. apply H, (select_In _ _ _ Hx).
Qed.

(** The two derived columns of the table shown: the levels are the
    buckets of the scores, and the scores are clipped. *)
Lemma shown_scores (df shown : DataFrame) (selected_regions : list scalar) :
  prepare (Loaded df) selected_regions = Shown shown ->
  exists scores,
    lookup "risk_score" (columns shown) = Some (Float64 scores) /\
    lookup "risk_level" (columns shown) =
      Some (Category (map level_of scores)) /\
    Forall clipped scores.
Proof.
  intros H. destruct (prepare_shown_inv _ _ _ H) as (df' & F & G).
  destruct (feature_engineering_inv _ _ F) as (incs & ls & ags & _ & _ & _ & ->).
  destruct (derived_score_level df incs ls ags) as [Hs Hl].
  pose proof (score_column_clipped (ratio_column incs ls) ags) as Hc.
  unfold region_filter, getitem in G.
  destruct (lookup "region" _) as [region|]; [|discriminate]. simpl in G.
  destruct selected_regions as [|v vs]; injection G as <-.
  - eauto.
  - exists (select (isin region (v :: vs))
              (score_column (ratio_column incs ls) ags)).
    rewrite !lookup_select_rows, Hs, Hl. simpl.
    rewrite select_map. split; [reflexivity|]. split; [reflexivity|].
    apply Forall_select, Hc.
Qed.

(** The cells of a row of the derived table. *)
Lemma engineered_row_fields (df df' : DataFrame) (i : nat) :
  wf df -> feature_engineering df = Ok df' ->
  (i < List.length (index df'))%nat ->
  exists income loan_amount age,
    let r := snd (row_at df' i) in
    field "income" r = Some (Num income) /\
    field "loan_amount" r = Some (Num loan_amount) /\
    field "age" r = Some (Num age) /\
    field "income_to_loan_ratio" r =
      Some (Num (ratio_of income loan_amount)) /\
    field "risk_score" r =
      Some (Num (score_of (ratio_of income loan_amount) age)) /\
    field "risk_level" r =
      Some (level_cell (level_of (score_of (ratio_of income loan_amount) age))).
Proof.
  intros Hw F Hi.
  pose proof (wf_feature_engineering _ _ Hw F) as Hw'.
  destruct (feature_engineering_inv _ _ F) as (incs & ls & ags & Li & Ll & La & E).
  assert (Hx : index df' = index df) by (subst df'; reflexivity).
  rewrite Hx in Hi.
  pose proof (lookup_size _ _ _ Hw Li) as Si.
  pose proof (lookup_size _ _ _ Hw Ll) as Sl.
  pose proof (lookup_size _ _ _ Hw La) as Sa.
  rewrite size_Float64 in Si, Sl, Sa.
  destruct (nth_error incs i) as [x|] eqn:Ex;
    [|apply nth_error_None in Ex; lia].
  destruct (nth_error ls i) as [y|] eqn:Ey;
    [|apply nth_error_None in Ey; lia].
  destruct (nth_error ags i) as [a|] eqn:Ea;
    [|apply nth_error_None in Ea; lia].
  assert (R : row_derivation df df' i x y a).
  { apply feature_engineering_row; trivial;
      erewrite cell_float by eassumption; rewrite ?Ex, ?Ey, ?Ea; reflexivity. }
  destruct R as (Ci & Cl & Ca & Cr & Cs & Cv).
  assert (K : forall name, In name required_columns ->
                cell df' name i = cell df name i).
  { intros name Hn. unfold cell. subst df'.
    rewrite derived_lookup_other by (apply required_not_derived, Hn).
    reflexivity. }
  exists x, y, a. cbv zeta.
  rewrite !(field_row_at_cell df') by (trivial; rewrite Hx; exact Hi).
  rewrite !K by (simpl; tauto). auto 7.
Qed.

(** The cells of a row of the table shown. *)
Lemma shown_row (df shown : DataFrame) (selected_regions : list scalar)
  (r : row) :
  wf df ->
  prepare (Loaded df) selected_regions = Shown shown ->
  In r (rows shown) ->
  exists income loan_amount age,
    field "income" (snd r) = Some (Num income) /\
    field "loan_amount" (snd r) = Some (Num loan_amount) /\
    field "age" (snd r) = Some (Num age) /\
    field "income_to_loan_ratio" (snd r) =
      Some (Num (ratio_of income loan_amount)) /\
    field "risk_score" (snd r) =
      Some (Num (score_of (ratio_of income loan_amount) age)) /\
    field "risk_level" (snd r) =
      Some (level_cell (level_of (score_of (ratio_of income loan_amount) age))).
Proof.
  intros Hw H Hr. destruct (prepare_shown_inv _ _ _ H) as (df' & F & G).
  pose proof (wf_feature_engineering _ _ Hw F) as Hw'.
  apply (region_filter_In _ _ _ _ Hw' G) in Hr.
  apply In_rows in Hr. destruct Hr as (i & Hi & ->).
  exact (engineered_row_fields df df' i Hw F Hi).
Qed.

Lemma wf_shown (df shown : DataFrame) (selected_regions : list scalar) :
  wf df -> prepare (Loaded df) selected_regions = Shown shown -> wf shown.
Proof.
  intros Hw H. destruct (prepare_shown_inv _ _ _ H) as (df' & F & G).
  pose proof (wf_feature_engineering _ _ Hw F) as Hw'.
  apply (region_filter_selects _ _ _ Hw' G).
Qed.

(** X4: every row of the table shown still carries what the feature
    engineering wrote for it: the region filter leaves the cells of the
    rows it keeps alone. From the income, loan amount and age of the row,
    the ratio is their quotient, the score the clipped weighted sum and
    the level the bucket of that score. *)
Theorem shown_rows_keep_derivation (df shown : DataFrame)
  (selected_regions : list scalar) (r : row) :
  wf df ->
  prepare (Loaded df) selected_regions = Shown shown ->
  In r (rows shown) ->
  exists income loan_amount age,
    field "income" (snd r) = Some (Num income) /\
    field "loan_amount" (snd r) = Some (Num loan_amount) /\
    field "age" (snd r) = Some (Num age) /\
    field "income_to_loan_ratio" (snd r) =
      Some (Num (div income loan_amount)) /\
    field "risk_score" (snd r) =
      Some (Num (Np.clip (add (mul (div income loan_amount) lit_0_3)
                            (mul age lit_0_01)) zero one)) /\
    field "risk_level" (snd r) =
      Some (level_cell
              (cut1 bins labels
                 (Np.clip (add (mul (div income loan_amount) lit_0_3)
                             (mul age lit_0_01)) zero one))).
Proof. exact (shown_row df shown selected_regions r). Qed.

Lemma shown_rows_keep_derivation_witness :
  let df := borrowers [(of_Z 40, of_Z 3000, of_Z 10000, "Accra"%string)] in
  let r := row_at (engineered df) 0 in
  exists income loan_amount age,
    field "income" (snd r) = Some (Num income) /\
    field "loan_amount" (snd r) = Some (Num loan_amount) /\
    field "age" (snd r) = Some (Num age) /\
    field "income_to_loan_ratio" (snd r) =
      Some (Num (div income loan_amount)) /\
    field "risk_score" (snd r) =
      Some (Num (Np.clip (add (mul (div income loan_amount) lit_0_3)
                            (mul age lit_0_01)) zero one)) /\
    field "risk_level" (snd r) =
      Some (level_cell
              (cut1 bins labels
                 (Np.clip (add (mul (div income loan_amount) lit_0_3)
                             (mul age lit_0_01)) zero one))).
Proof.
  intros df r.
  refine (shown_rows_keep_derivation df (engineered df) [Str "Accra"] r
            (wf_borrowers _) _ _).
  - vm_compute. reflexivity.
  - vm_compute. left. reflexivity.
Defined.

End Pipeline.

(** ** The options of the filters and the groups they make *)

Section Groups.

Lemma eqb_refl (x : float64) : is_nan x = false -> eqb x x = true.
Proof.
  unfold eqb, SFeqb.
  destruct x as [[]|[]| |[] m e]; simpl; try discriminate; try reflexivity;
    fold_pos_compare; rewrite Z.compare_refl, Pos.compare_refl; reflexivity.
Qed.

Lemma scalar_eqb_refl (v : scalar) : scalar_eqb v v = true.
Proof.
  destruct v as [x|s]; simpl.
  - destruct (is_nan x) eqn:E; [apply orb_true_r|].
    rewrite (eqb_refl x E). reflexivity.
  - apply String.eqb_refl.
Qed.

Lemma unique_cells_In (xs : list scalar) :
  forall seen v, In v (unique_cells seen xs) -> In v xs.
Proof.
  induction xs as [|x xs IH]; intros seen v; simpl; [trivial|].
  destruct (existsb (scalar_eqb x) seen); simpl; intros H.
  - right. apply (IH _ _ H).
  - destruct H as [H|H]; [auto|right; apply (IH _ _ H)].
Qed.

(** Every cell matches one of the values seen or kept. *)
Lemma unique_cells_covers (xs : list scalar) :
  forall seen u,
    In u xs ->
    existsb (scalar_eqb u) (seen ++ unique_cells seen xs) = true.
Proof.
  induction xs as [|x xs IH]; intros seen u; simpl; [contradiction|].
  intros H. destruct (existsb (scalar_eqb x) seen) eqn:E.
  - destruct H as [<-|H]; [|apply IH, H].
    rewrite existsb_app, E. reflexivity.
  - rewrite existsb_app. simpl. destruct H as [<-|H].
    + rewrite scalar_eqb_refl. apply orb_true_r.
    + pose proof (IH (x :: seen) u H) as K. simpl in K.
      rewrite existsb_app in K.
      destruct (scalar_eqb u x), (existsb (scalar_eqb u) seen);
        simpl in *; auto.
Qed.

(** No value kept matches a value seen before it. *)
Lemma unique_cells_fresh (xs : list scalar) :
  forall seen b,
    In b (unique_cells seen xs) -> existsb (scalar_eqb b) seen = false.
Proof.
  induction xs as [|x xs IH]; intros seen b; simpl; [contradiction|].
  destruct (existsb (scalar_eqb x) seen) eqn:E; simpl.
  - apply IH.
  - intros [<-|H]; [exact E|].
    pose proof (IH _ _ H) as K. simpl in K.
    apply orb_false_iff in K. tauto.
Qed.

Lemma unique_cells_distinct (xs : list scalar) :
  forall seen,
    ForallOrdPairs (fun a b => scalar_eqb b a = false) (unique_cells seen xs).
Proof.
  induction xs as [|x xs IH]; intros seen; simpl; [constructor|].
  destruct (existsb (scalar_eqb x) seen) eqn:E; [apply IH|].
  constructor; [|apply IH].
  apply Forall_forall. intros b Hb.
  pose proof (unique_cells_fresh _ _ _ Hb) as K. simpl in K.
  apply orb_false_iff in K. tauto.
Qed.

Lemma ForallOrdPairs_nth {A : Type} (R : A -> A -> Prop) (l : list A) :
  ForallOrdPairs R l ->
  forall i j x y,
    (i < j)%nat -> nth_error l i = Some x -> nth_error l j = Some y -> R x y.
Proof.
  induction 1 as [|a l Ha H IH]; intros i j x y Hij Hi Hj.
  - destruct i; discriminate.
  - destruct j as [|j]; [lia|]. simpl in Hj. destruct i as [|i].
    + injection Hi as <-. rewrite Forall_forall in Ha.
      apply Ha. apply (nth_error_In _ _ Hj).
    + simpl in Hi. apply (IH i j); trivial. lia.
Qed.

Lemma region_fields (df : DataFrame) (region : column) :
  wf df -> lookup "region" (columns df) = Some region ->
  map (fun r : row => field "region" (snd r)) (rows df) =
  map Some (cells region).
Proof.
  intros Hw Hl. apply rows_of_field.
  - rewrite (lookup_map_snd cells), Hl. reflexivity.
  - apply (lookup_size df "region" region Hw Hl).
Qed.

(** Every option is the region of a row, and the region of every row
    matches an option. *)
Lemma region_options_In (df : DataFrame) (region : column) (v : scalar) :
  wf df -> lookup "region" (columns df) = Some region ->
  In v (unique region) ->
  exists r, In r (rows df) /\ field "region" (snd r) = Some v.
Proof.
  intros Hw Hl Hv. pose proof (region_fields df region Hw Hl) as F.
  apply unique_cells_In in Hv.
  apply (in_map Some) in Hv. rewrite <- F in Hv.
  apply in_map_iff in Hv. destruct Hv as (r & E & Hr). eauto.
Qed.

Lemma region_options_cover (df : DataFrame) (region : column) (r : row) :
  wf df -> lookup "region" (columns df) = Some region ->
  In r (rows df) -> region_in (unique region) r = true.
Proof.
  intros Hw Hl Hr. pose proof (region_fields df region Hw Hl) as F.
  apply (in_map (fun r : row => field "region" (snd r))) in Hr.
  rewrite F in Hr. apply in_map_iff in Hr. destruct Hr as (v & E & Hv).
  unfold region_in. rewrite <- E.
  apply (unique_cells_covers (cells region) [] v Hv).
Qed.

(** X5: the options of the region filter, [df["region"].unique()], are
    exactly the regions of the table: every option is the region of some
    row, the region of every row matches an option, and no option comes
    twice. *)
Theorem region_options_are_the_regions (df : DataFrame)
  (options : list scalar) :
  wf df ->
  region_options df = Ok options ->
  (forall v, In v options ->
     exists r, In r (rows df) /\ field "region" (snd r) = Some v) /\
  (forall r, In r (rows df) -> region_in options r = true) /\
  (forall i j a b, (i < j)%nat ->
     nth_error options i = Some a -> nth_error options j = Some b ->
     scalar_eqb b a = false).
Proof.
  intros Hw. unfold region_options, getitem.
  destruct (lookup "region" (columns df)) as [region|] eqn:Hl;
    [|discriminate].
  simpl. intros [= <-]. split; [|split].
  - intros v. apply (region_options_In df region v Hw Hl).
  - intros r. apply (region_options_cover df region r Hw Hl).
  - intros i j a b.
    apply (ForallOrdPairs_nth (fun a b => scalar_eqb b a = false)).
    apply unique_cells_distinct.
Qed.

Lemma region_options_are_the_regions_witness :
  let df := borrowers
    [(of_Z 40, of_Z 3000, of_Z 10000, "Accra"%string);
     (of_Z 30, of_Z 5000, of_Z 2000, "Volta"%string);
     (of_Z 50, of_Z 4000, of_Z 2000, "Accra"%string)] in
  let options := [Str "Accra"; Str "Volta"] in
  (forall v, In v options ->
     exists r, In r (rows df) /\ field "region" (snd r) = Some v) /\
  (forall r, In r (rows df) -> region_in options r = true) /\
  (forall i j a b, (i < j)%nat ->
     nth_error options i = Some a -> nth_error options j = Some b ->
     scalar_eqb b a = false).
Proof.
  intros df options.
  exact (region_options_are_the_regions df options (wf_borrowers _) eq_refl).
Defined.

(** X6: a selection made among the options of the region filter never
    empties the table: as soon as one option is selected, a row is left.
    With every option selected, every row is left. *)
Theorem region_selection_among_options (df : DataFrame)
  (options selected_regions : list scalar) :
  wf df ->
  region_options df = Ok options ->
  (forall v, In v selected_regions -> In v options) ->
  exists df' all,
    region_filter selected_regions df = Ok df' /\
    (index df <> [] -> rows df' <> []) /\
    region_filter options df = Ok all /\
    rows all = rows df.
Proof.
  intros Hw Ho Hs.
  unfold region_options, getitem in Ho.
  destruct (lookup "region" (columns df)) as [region|] eqn:Hl;
    [|discriminate].
  simpl in Ho. injection Ho as Eo.
  pose proof (fun v => region_options_In df region v Hw Hl) as A.
  pose proof (fun r => region_options_cover df region r Hw Hl) as B.
  rewrite Eo in A, B.
  assert (T : forall R, exists df', region_filter R df = Ok df').
  { intros R. unfold region_filter, getitem. rewrite Hl. simpl.
    destruct R; eauto. }
  destruct (T selected_regions) as [df' F]. destruct (T options) as [all G].
  exists df', all. split; [exact F|].
  destruct (region_filter_selects _ _ _ Hw F) as (_ & Fe & Fn).
  destruct (region_filter_selects _ _ _ Hw G) as (_ & Ge & Gn).
  split; [|split; [exact G|]].
  - intros Hi. destruct selected_regions as [|v vs].
    + rewrite (Fe eq_refl). unfold rows. destruct (index df); [congruence|].
      discriminate.
    + rewrite Fn by discriminate.
      destruct (A v (Hs v (or_introl eq_refl))) as (r & Hr & E).
      assert (K : In r (filter (region_in (v :: vs)) (rows df))).
      { apply filter_In. split; [exact Hr|]. unfold region_in. rewrite E.
        simpl. rewrite scalar_eqb_refl. reflexivity. }
      intros N. rewrite N in K. exact K.
  - destruct options as [|o os].
    + rewrite (Ge eq_refl). reflexivity.
    + rewrite Gn by discriminate. apply forallb_filter_id.
      apply forallb_forall. exact B.
Qed.

Lemma region_selection_among_options_witness :
  let df := borrowers
    [(of_Z 40, of_Z 3000, of_Z 10000, "Accra"%string);
     (of_Z 30, of_Z 5000, of_Z 2000, "Volta"%string);
     (of_Z 50, of_Z 4000, of_Z 2000, "Accra"%string)] in
  exists df' all,
    region_filter [Str "Volta"] df = Ok df' /\
    (index df <> [] -> rows df' <> []) /\
    region_filter [Str "Accra"; Str "Volta"] df = Ok all /\
    rows all = rows df.
Proof.
  intros df.
  refine (region_selection_among_options df [Str "Accra"; Str "Volta"]
            [Str "Volta"] (wf_borrowers _) eq_refl _).
  intros v Hv. simpl in Hv. simpl. tauto.
Defined.

(** The mask of the comparison with a label, read off the rows. *)
Lemma eq_label_rows (df : DataFrame) (level : column) (label : string) :
  wf df -> lookup "risk_level" (columns df) = Some level ->
  eq_label level label = map (level_is label) (rows df).
Proof.
  intros Hw Hl. unfold eq_label.
  assert (F : map (fun r : row => field "risk_level" (snd r)) (rows df)
              = map Some (cells level)).
  { apply rows_of_field.
    - rewrite (lookup_map_snd cells), Hl. reflexivity.
    - apply (lookup_size df "risk_level" level Hw Hl). }
  transitivity
    (map (fun o : option scalar =>
            match o with
            | Some (Str s) => String.eqb s label
            | _ => false
            end)
       (map (fun r : row => field "risk_level" (snd r)) (rows df))).
  - rewrite F, map_map. reflexivity.
  - rewrite map_map. reflexivity.
Qed.

Lemma level_filter_filters (selected_level : string) (df df' : DataFrame) :
  wf df -> level_filter selected_level df = Ok df' ->
  (selected_level = "All"%string -> df' = df) /\
  (selected_level <> "All"%string ->
   rows df' = filter (level_is selected_level) (rows df)).
Proof.
  intros Hw. unfold level_filter, getitem.
  destruct (String.eqb selected_level "All") eqn:E.
  - apply String.eqb_eq in E. intros [= <-]. split; [reflexivity|].
    intros N. contradiction.
  - apply String.eqb_neq in E.
    destruct (lookup "risk_level" (columns df)) as [level|] eqn:Hl;
      [|discriminate].
    simpl. intros [= <-]. split; [intros N; contradiction|]. intros _.
    rewrite rows_select_rows;
      [|exact Hw|rewrite length_eq_label; apply (lookup_size _ _ _ Hw Hl)].
    rewrite (eq_label_rows df level selected_level Hw Hl).
    apply select_filter.
Qed.

(** X7: the risk-level filter of the right-hand table shows, for a level
    other than "All", exactly the rows of that level, in their order:
    each of them is kept and every other row is removed, the rows
    without a level among them. For "All" the table is left as it is. *)
Theorem level_filter_rows (selected_level : string) (df df' : DataFrame) :
  wf df ->
  level_filter selected_level df = Ok df' ->
  wf df' /\
  (selected_level = "All"%string -> df' = df) /\
  (selected_level <> "All"%string ->
   rows df' = filter (level_is selected_level) (rows df) /\
   forall r, In r (rows df') <->
             In r (rows df) /\
             field "risk_level" (snd r) = Some (Str selected_level)).
Proof.
  intros Hw H.
  destruct (level_filter_selects _ _ _ Hw H) as [Hw' _].
  destruct (level_filter_filters _ _ _ Hw H) as [He Hn].
  split; [exact Hw'|]. split; [exact He|]. intros N.
  split; [exact (Hn N)|]. intros r. rewrite (Hn N), filter_In.
  unfold level_is.
  destruct (field "risk_level" (snd r)) as [[x|s]|].
  - split; intros [A B]; discriminate.
  - rewrite String.eqb_eq. split; intros [A B]; split; congruence.
  - split; intros [A B]; discriminate.
Qed.

Lemma level_filter_rows_witness :
  let df := engineered (borrowers
    [(of_Z 40, of_Z 3000, of_Z 10000, "Accra"%string);
     (of_Z 30, of_Z 5000, of_Z 2000, "Volta"%string)]) in
  let df' := select_rows [false; true] df in
  wf df' /\
  ("High" = "All" -> df' = df)%string /\
  ("High" <> "All" ->
   rows df' = filter (level_is "High") (rows df) /\
   forall r, In r (rows df') <->
             In r (rows df) /\
             field "risk_level" (snd r) = Some (Str "High"))%string.
Proof.
  intros df df'.
  refine (level_filter_rows "High" df df' _ _).
  - apply (wf_feature_engineering (borrowers
      [(of_Z 40, of_Z 3000, of_Z 10000, "Accra"%string);
       (of_Z 30, of_Z 5000, of_Z 2000, "Volta"%string)])).
    + apply wf_borrowers.
    + reflexivity.
  - vm_compute. reflexivity.
Defined.

End Groups.

(** ** The levels of the table shown *)

Section Levels.

(** On a clipped score the top bucket is the scores above 0.7. *)
Lemma high_iff_gt (s : float64) :
  clipped s -> (level_of s = Some "High"%string <-> gtb s lit_0_7 = true).
Proof.
  intros C. rewrite level_of_high. unfold gtb. split; [tauto|].
  intros H. split; [exact H|].
  destruct (ltb_not_nan _ _ H) as [_ Hn].
  destruct C as [C|[_ C]]; congruence.
Qed.

Lemma level_cell_high (s : float64) :
  clipped s ->
  match level_cell (level_of s) with
  | Str l => String.eqb l "High"
  | Num _ => false
  end = gtb s lit_0_7.
Proof.
  intros C. pose proof (high_iff_gt s C) as H.
  destruct (level_of s) as [l|] eqn:E; simpl.
  - destruct (level_of_label s l E) as [-> | [-> | ->]].
    + destruct (gtb s lit_0_7); [|reflexivity].
      destruct H as [_ H]. discriminate (H eq_refl).
    + destruct (gtb s lit_0_7); [|reflexivity].
      destruct H as [_ H]. discriminate (H eq_refl).
    + destruct H as [H _]. rewrite (H eq_refl). reflexivity.
  - destruct (gtb s lit_0_7); [|reflexivity].
    destruct H as [_ H]. discriminate (H eq_refl).
Qed.

Lemma recommend_level_of (s : float64) :
  clipped s ->
  recommend (level_cell (level_of s)) =
  if gtb s lit_0_7 then "Review manually"%string else "Likely Approve"%string.
Proof.
  intros C. rewrite <- (level_cell_high s C).
  destruct (level_cell (level_of s)); reflexivity.
Qed.

(** X8: the action recommended for a borrower of the table shown depends
    on the score alone: "Review manually" for a score above 0.7 and
    "Likely Approve" for every other one, a missing score (NaN) and a
    score of 0, which carry no level, among them. *)
Theorem recommendation_by_score (df shown : DataFrame)
  (selected_regions : list scalar) (r : row) :
  wf df ->
  prepare (Loaded df) selected_regions = Shown shown ->
  In r (rows shown) ->
  exists score level,
    field "risk_score" (snd r) = Some (Num score) /\
    field "risk_level" (snd r) = Some level /\
    (gtb score lit_0_7 = true -> recommend level = "Review manually"%string) /\
    (gtb score lit_0_7 = false -> recommend level = "Likely Approve"%string).
Proof.
  intros Hw H Hr.
  destruct (shown_row _ _ _ _ Hw H Hr)
    as (x & y & a & _ & _ & _ & _ & Hs & Hl).
  eexists. eexists. split; [exact Hs|]. split; [exact Hl|].
  rewrite recommend_level_of by apply clipped_clip.
  split; intros ->; reflexivity.
Qed.

Lemma recommendation_by_score_witness :
  let df := borrowers [(of_Z 30, of_Z 5000, of_Z 2000, "Volta"%string)] in
  let r := row_at (engineered df) 0 in
  exists score level,
    field "risk_score" (snd r) = Some (Num score) /\
    field "risk_level" (snd r) = Some level /\
    (gtb score lit_0_7 = true -> recommend level = "Review manually"%string) /\
    (gtb score lit_0_7 = false -> recommend level = "Likely Approve"%string).
Proof.
  intros df r.
  refine (recommendation_by_score df (engineered df) [] r
            (wf_borrowers _) _ _).
  - vm_compute. reflexivity.
  - vm_compute. left. reflexivity.
Defined.

(** X9: the metric "High Risk Borrowers" of the summary counts exactly
    the rows of the table shown whose score is above 0.7, and "Total
    Borrowers" counts its rows. *)
Theorem high_risk_borrowers_count (df shown : DataFrame)
  (selected_regions : list scalar) :
  wf df ->
  prepare (Loaded df) selected_regions = Shown shown ->
  exists scores,
    lookup "risk_score" (columns shown) = Some (Float64 scores) /\
    total_borrowers shown = List.length scores /\
    high_risk_borrowers shown =
      Ok (List.length (filter (fun s => gtb s lit_0_7) scores)).
Proof.
  intros Hw H. pose proof (wf_shown _ _ _ Hw H) as Hw'.
  destruct (shown_scores _ _ _ H) as (scores & Hs & Hl & Hc).
  pose proof (lookup_size _ _ _ Hw' Hs) as S. rewrite size_Float64 in S.
  exists scores. split; [exact Hs|]. split; [symmetry; exact S|].
  unfold high_risk_borrowers, getitem. rewrite Hl. simpl. f_equal.
  assert (M : eq_label (Category (map level_of scores)) "High"
              = map (fun s => gtb s lit_0_7) scores).
  { unfold eq_label. simpl. rewrite !map_map. apply map_ext_in.
    intros s Hin. rewrite Forall_forall in Hc.
    apply (level_cell_high s (Hc s Hin)). }
  rewrite M, (length_select _ (index shown) scores) by (symmetry; exact S).
  rewrite select_filter. reflexivity.
Qed.

Lemma high_risk_borrowers_count_witness :
  let df := borrowers
    [(of_Z 40, of_Z 3000, of_Z 10000, "Accra"%string);
     (of_Z 30, of_Z 5000, of_Z 2000, "Volta"%string)] in
  exists scores,
    lookup "risk_score" (columns (engineered df)) = Some (Float64 scores) /\
    total_borrowers (engineered df) = List.length scores /\
    high_risk_borrowers (engineered df) =
      Ok (List.length (filter (fun s => gtb s lit_0_7) scores)).
Proof.
  intros df.
  refine (high_risk_borrowers_count df (engineered df) [] (wf_borrowers _) _).
  vm_compute. reflexivity.
Defined.

Lemma count_groups {A : Type} (p1 p2 p3 p4 : A -> bool) (l : list A) :
  (forall r, In r l ->
     (Nat.b2n (p1 r) + Nat.b2n (p2 r) + Nat.b2n (p3 r) + Nat.b2n (p4 r)
      = 1)%nat) ->
  (List.length (filter p1 l) + List.length (filter p2 l) +
   List.length (filter p3 l) + List.length (filter p4 l)
   = List.length l)%nat.
Proof.
  induction l as [|r l IH]; intros H; [reflexivity|].
  assert (K := H r (or_introl eq_refl)).
  assert (IH' := IH (fun x Hx => H x (or_intror Hx))).
  simpl. destruct (p1 r), (p2 r), (p3 r), (p4 r); simpl in *; lia.
Qed.

(** X10: the three risk levels split the table shown: every row is in
    exactly one of the groups Low, Medium and High of the risk-level
    filter or carries no level, so the sizes of the three groups and the
    number of rows without a level add up to the number of rows. The
    rows without a level are those whose score is NaN or not above 0. *)
Theorem risk_levels_split_table (df shown low medium high : DataFrame)
  (selected_regions : list scalar) :
  wf df ->
  prepare (Loaded df) selected_regions = Shown shown ->
  level_filter "Low" shown = Ok low ->
  level_filter "Medium" shown = Ok medium ->
  level_filter "High" shown = Ok high ->
  (List.length (rows low) + List.length (rows medium) +
   List.length (rows high) + List.length (filter unlabelled (rows shown))
   = List.length (rows shown))%nat /\
  (forall r, In r (rows shown) ->
     (Nat.b2n (level_is "Low" r) + Nat.b2n (level_is "Medium" r) +
      Nat.b2n (level_is "High" r) + Nat.b2n (unlabelled r) = 1)%nat) /\
  (forall r, In r (rows shown) ->
     exists score,
       field "risk_score" (snd r) = Some (Num score) /\
       (unlabelled r = true <->
        is_nan score = true \/ leb score zero = true)).
Proof.
  intros Hw H Ll Lm Lh. pose proof (wf_shown _ _ _ Hw H) as Hw'.
  destruct (level_filter_filters _ _ _ Hw' Ll) as [_ El].
  destruct (level_filter_filters _ _ _ Hw' Lm) as [_ Em].
  destruct (level_filter_filters _ _ _ Hw' Lh) as [_ Eh].
  rewrite El, Em, Eh by discriminate.
  assert (One : forall r, In r (rows shown) ->
     (Nat.b2n (level_is "Low" r) + Nat.b2n (level_is "Medium" r) +
      Nat.b2n (level_is "High" r) + Nat.b2n (unlabelled r) = 1)%nat).
  { intros r Hr.
    destruct (shown_row _ _ _ _ Hw H Hr)
      as (x & y & a & _ & _ & _ & _ & _ & Hv).
    unfold level_is, unlabelled. rewrite Hv.
    destruct (level_of _) as [l|] eqn:E; [|reflexivity].
    destruct (level_of_label _ l E) as [-> | [-> | ->]]; reflexivity. }
  split; [apply count_groups, One|]. split; [exact One|].
  - intros r Hr.
    destruct (shown_row _ _ _ _ Hw H Hr)
      as (x & y & a & _ & _ & _ & _ & Hs & Hv).
    eexists. split; [exact Hs|]. unfold unlabelled. rewrite Hv.
    set (s := score_of (ratio_of x y) a).
    pose proof (level_of_none s) as N.
    assert (C : clipped s) by apply clipped_clip.
    destruct (level_of s) as [l|] eqn:E; simpl.
    + split; [discriminate|]. intros K. destruct N as [_ N].
      assert (K' : is_nan s = true \/ leb s zero = true \/ ltb one s = true)
        by tauto.
      discriminate (N K').
    + split; [|reflexivity]. intros _.
      destruct N as [N _]. destruct (N eq_refl) as [K|[K|K]]; auto.
      exfalso. destruct (ltb_not_nan _ _ K) as [_ Hn].
      destruct C as [C|[_ C]]; [congruence|].
      rewrite (ltb_irrefl_leb _ _ K) in C. discriminate.
Qed.

Lemma risk_levels_split_table_witness :
  let df := engineered (borrowers
    [(of_Z 40, of_Z 3000, of_Z 10000, "Accra"%string);
     (of_Z 30, of_Z 5000, of_Z 2000, "Volta"%string);
     (of_Z 0, of_Z 0, of_Z 2000, "Volta"%string)]) in
  (List.length (rows (select_rows [false; false; false] df)) +
   List.length (rows (select_rows [true; false; false] df)) +
   List.length (rows (select_rows [false; true; false] df)) +
   List.length (filter unlabelled (rows df))
   = List.length (rows df))%nat /\
  (forall r, In r (rows df) ->
     (Nat.b2n (level_is "Low" r) + Nat.b2n (level_is "Medium" r) +
      Nat.b2n (level_is "High" r) + Nat.b2n (unlabelled r) = 1)%nat) /\
  (forall r, In r (rows df) ->
     exists score,
       field "risk_score" (snd r) = Some (Num score) /\
       (unlabelled r = true <->
        is_nan score = true \/ leb score zero = true)).
Proof.
  intros df.
  refine (risk_levels_split_table (borrowers
    [(of_Z 40, of_Z 3000, of_Z 10000, "Accra"%string);
     (of_Z 30, of_Z 5000, of_Z 2000, "Volta"%string);
     (of_Z 0, of_Z 0, of_Z 2000, "Volta"%string)]) df _ _ _ []
    (wf_borrowers _) _ _ _ _); vm_compute; reflexivity.
Defined.

End Levels.

(** ** Sorting by score *)

Section Sorting.

Lemma precedes_false_iff (x y : float64) :
  precedes y x = false <-> not_before x y.
Proof.
  unfold precedes, not_before, gtb.
  destruct (is_nan y) eqn:Hy; [tauto|].
  destruct (is_nan x) eqn:Hx.
  - split; [discriminate|]. intros [H|H]; [discriminate|].
    destruct (leb_not_nan _ _ H). congruence.
  - rewrite (leb_negb_ltb y x Hy Hx). destruct (ltb x y); simpl.
    + split; [discriminate|]. intros [H|H]; discriminate.
    + tauto.
Qed.

Lemma ltb_irrefl (x : float64) : ltb x x = false.
Proof.
  destruct (ltb x x) eqn:E; [|reflexivity].
  pose proof (ltb_leb _ _ E) as L. rewrite (ltb_irrefl_leb _ _ E) in L.
  discriminate.
Qed.

Lemma precedes_irrefl (x : float64) : precedes x x = false.
Proof.
  unfold precedes, gtb. destruct (is_nan x); [reflexivity|apply ltb_irrefl].
Qed.

Lemma precedes_asym (x y : float64) :
  precedes x y = true -> precedes y x = false.
Proof.
  unfold precedes, gtb. destruct (is_nan x) eqn:Hx; [discriminate|].
  destruct (is_nan y) eqn:Hy; [reflexivity|]. intros H.
  destruct (ltb x y) eqn:E; [|reflexivity].
  pose proof (ltb_leb _ _ E) as L. rewrite (ltb_irrefl_leb _ _ H) in L.
  discriminate.
Qed.

Lemma precedes_cotrans (x y z : float64) :
  precedes z x = true -> precedes y x = true \/ precedes z y = true.
Proof.
  unfold precedes, gtb. destruct (is_nan z) eqn:Hz; [discriminate|].
  destruct (is_nan y) eqn:Hy; [auto|].
  destruct (is_nan x) eqn:Hx; [auto|]. intros H.
  destruct (ltb x y) eqn:E; [auto|]. right.
  apply (leb_ltb_trans y x z); [|exact H].
  rewrite (leb_negb_ltb y x Hy Hx), E. reflexivity.
Qed.

Lemma insert_desc_sorted (p : nat * float64) (l : list (nat * float64)) :
  ForallOrdPairs (fun a b => precedes (snd b) (snd a) = false) l ->
  ForallOrdPairs (fun a b => precedes (snd b) (snd a) = false)
    (insert_desc p l).
Proof.
  induction 1 as [|q l Hq H IH]; simpl.
  - constructor; constructor.
  - rewrite Forall_forall in Hq.
    destruct (precedes (snd q) (snd p)) eqn:E.
    + constructor; [|exact IH]. apply Forall_forall. intros r Hr.
      apply insert_desc_In in Hr. destruct Hr as [->|Hr].
      * apply precedes_asym, E.
      * apply Hq, Hr.
    + constructor; [|constructor; [apply Forall_forall; exact Hq|exact H]].
      constructor; [exact E|]. apply Forall_forall. intros r Hr.
      destruct (precedes (snd r) (snd p)) eqn:K; [|reflexivity].
      destruct (precedes_cotrans _ (snd q) _ K) as [C|C].
      * congruence.
      * rewrite (Hq r Hr) in C. discriminate.
Qed.

Lemma insertion_sort_sorted (l : list (nat * float64)) :
  ForallOrdPairs (fun a b => precedes (snd b) (snd a) = false)
    (fold_right insert_desc [] l).
Proof.
  induction l as [|p l IH]; simpl; [constructor|].
  apply insert_desc_sorted, IH.
Qed.

Lemma insert_desc_perm (p : nat * float64) (l : list (nat * float64)) :
  Permutation (insert_desc p l) (p :: l).
Proof.
  induction l as [|q l IH]; simpl; [reflexivity|].
  destruct (precedes (snd q) (snd p)); [|reflexivity].
  rewrite IH. apply perm_swap.
Qed.

Lemma insertion_sort_perm (l : list (nat * float64)) :
  Permutation (fold_right insert_desc [] l) l.
Proof.
  induction l as [|p l IH]; simpl; [reflexivity|].
  rewrite insert_desc_perm, IH. reflexivity.
Qed.

Lemma map_fst_combine {A B : Type} (l : list A) :
  forall l' : list B,
    List.length l = List.length l' -> map fst (combine l l') = l.
Proof.
  induction l as [|a l IH]; intros [|b l'] H; try discriminate; simpl; auto.
  injection H as H. rewrite (IH _ H). reflexivity.
Qed.

(** The sorted positions are the positions of the column, each once. *)
Lemma argsort_desc_perm (xs : list float64) :
  Permutation (argsort_desc xs) (seq 0 (List.length xs)).
Proof.
  unfold argsort_desc.
  rewrite <- (map_fst_combine (seq 0 (List.length xs)) xs) at 2
    by apply length_seq.
  apply Permutation_map, insertion_sort_perm.
Qed.

Lemma In_combine_seq (xs : list float64) :
  forall start p x,
    In (p, x) (combine (seq start (List.length xs)) xs) ->
    (start <= p)%nat /\ nth_error xs (p - start) = Some x.
Proof.
  induction xs as [|y xs IH]; intros start p x; simpl; [contradiction|].
  intros [H|H].
  - injection H as <- <-. rewrite Nat.sub_diag. auto.
  - destruct (IH _ _ _ H) as [L E]. split; [lia|].
    replace (p - start)%nat with (S (p - S start)) by lia. exact E.
Qed.

Lemma map_nth_seq {A : Type} (d : A) (l : list A) :
  map (fun p => nth p l d) (seq 0 (List.length l)) = l.
Proof.
  induction l as [|a l IH]; [reflexivity|].
  cbn [List.length seq map nth]. f_equal.
  rewrite <- seq_shift, map_map. exact IH.
Qed.

Lemma ForallOrdPairs_map {A B : Type} (f : A -> B) (R : B -> B -> Prop)
  (l : list A) :
  ForallOrdPairs (fun a b => R (f a) (f b)) l -> ForallOrdPairs R (map f l).
Proof.
  induction 1 as [|a l Ha H IH]; simpl; constructor; [|exact IH].
  apply Forall_map. exact Ha.
Qed.

Lemma ForallOrdPairs_app {A : Type} (R : A -> A -> Prop) (l1 l2 : list A) :
  ForallOrdPairs R (l1 ++ l2) ->
  forall x y, In x l1 -> In y l2 -> R x y.
Proof.
  induction l1 as [|a l1 IH]; simpl; intros H x y Hx Hy; [contradiction|].
  inversion H as [|? ? Ha H']. subst. destruct Hx as [<-|Hx].
  - rewrite Forall_forall in Ha. apply Ha, in_or_app. auto.
  - apply IH; assumption.
Qed.

(** The scores at the sorted positions: a rearrangement of the column
    in which no score stands after one that it precedes. *)
Lemma sorted_scores (xs : list float64) :
  let ss := map (fun p => nth p xs nan) (argsort_desc xs) in
  Permutation ss xs /\
  ForallOrdPairs (fun x y => precedes y x = false) ss.
Proof.
  split.
  - rewrite <- (map_nth_seq nan xs) at 2.
    apply Permutation_map, argsort_desc_perm.
  - unfold argsort_desc. rewrite map_map.
    rewrite (map_ext_in _ snd).
    + apply ForallOrdPairs_map, insertion_sort_sorted.
    + intros [p x] H. apply insertion_sort_In, In_combine_seq in H.
      destruct H as [_ H]. rewrite Nat.sub_0_r in H. simpl.
      apply nth_error_nth, H.
Qed.

Lemma wf_take (ps : list nat) (df : DataFrame) : wf (take ps df).
Proof.
  unfold wf, take, size. simpl. apply Forall_map, Forall_forall.
  intros [n c] _. simpl. rewrite cells_take_column, !length_map. reflexivity.
Qed.

Lemma rows_take_perm (df : DataFrame) (xs : list float64) :
  List.length xs = List.length (index df) ->
  Permutation (rows (take (argsort_desc xs) df)) (rows df).
Proof.
  intros H. rewrite rows_take, rows_positions, <- H.
  apply Permutation_map, argsort_desc_perm.
Qed.

Lemma field_score_row_at (df : DataFrame) (name : string)
  (xs : list float64) (p : nat) :
  lookup name (columns df) = Some (Float64 xs) ->
  field name (snd (row_at df p)) = Some (Num (nth p xs nan)).
Proof.
  intros H. rewrite field_row_at, H. simpl. f_equal.
  apply (map_nth Num).
Qed.

(** X11: [sort_values(by=name, ascending=False)] on a numeric column
    only rearranges the rows of the table, none is lost, added or
    changed, and puts the scores in decreasing order: a score that
    stands after another one is NaN or is not greater than it, so the
    missing scores come last. *)
Theorem sort_values_desc_sorts (df : DataFrame) (name : string)
  (xs : list float64) :
  wf df ->
  lookup name (columns df) = Some (Float64 xs) ->
  exists sorted ss,
    sort_values_desc df name = Ok sorted /\
    wf sorted /\
    Permutation (rows sorted) (rows df) /\
    lookup name (columns sorted) = Some (Float64 ss) /\
    Permutation ss xs /\
    (forall i j x y, (i < j)%nat ->
       nth_error ss i = Some x -> nth_error ss j = Some y ->
       is_nan y = true \/ leb y x = true).
Proof.
  intros Hw Hl. pose proof (lookup_size _ _ _ Hw Hl) as S.
  rewrite size_Float64 in S.
  destruct (sorted_scores xs) as [P F].
  exists (take (argsort_desc xs) df),
    (map (fun p => nth p xs nan) (argsort_desc xs)).
  split; [unfold sort_values_desc, getitem; rewrite Hl; reflexivity|].
  split; [apply wf_take|]. split; [apply rows_take_perm, S|].
  split; [|split; [exact P|]].
  - unfold take. simpl.
    rewrite (lookup_map_snd (take_column (argsort_desc xs))), Hl.
    reflexivity.
  - intros i j x y Hij Hi Hj. apply precedes_false_iff.
    exact (ForallOrdPairs_nth _ _ F i j x y Hij Hi Hj).
Qed.

Lemma sort_values_desc_sorts_witness :
  let df := engineered (borrowers
    [(of_Z 40, of_Z 3000, of_Z 10000, "Accra"%string);
     (of_Z 30, of_Z 5000, of_Z 2000, "Volta"%string)]) in
  exists sorted ss,
    sort_values_desc df "risk_score" = Ok sorted /\
    wf sorted /\
    Permutation (rows sorted) (rows df) /\
    lookup "risk_score" (columns sorted) = Some (Float64 ss) /\
    Permutation ss [lit_0_49; one] /\
    (forall i j x y, (i < j)%nat ->
       nth_error ss i = Some x -> nth_error ss j = Some y ->
       is_nan y = true \/ leb y x = true).
Proof.
  intros df.
  refine (sort_values_desc_sorts df "risk_score" [lit_0_49; one] _ _).
  - apply (wf_feature_engineering (borrowers
      [(of_Z 40, of_Z 3000, of_Z 10000, "Accra"%string);
       (of_Z 30, of_Z 5000, of_Z 2000, "Volta"%string)])).
    + apply wf_borrowers.
    + reflexivity.
  - vm_compute. reflexivity.
Defined.

(** X12: the table of the "Top 10" block holds the ten rows of greatest
    score, or all rows where the table has fewer: its rows and the rows
    left out make up the table, and the score of a row left out is NaN
    or is not greater than the score of any row kept. *)
Theorem top_risk_greatest (df : DataFrame) (xs : list float64) :
  wf df ->
  lookup "risk_score" (columns df) = Some (Float64 xs) ->
  exists top rest,
    top_risk df = Ok top /\
    List.length (rows top) = Nat.min 10 (List.length (rows df)) /\
    Permutation (rows top ++ rest) (rows df) /\
    (forall r s x y,
       In r (rows top) -> In s rest ->
       field "risk_score" (snd r) = Some (Num x) ->
       field "risk_score" (snd s) = Some (Num y) ->
       is_nan y = true \/ leb y x = true).
Proof.
  intros Hw Hl. pose proof (lookup_size _ _ _ Hw Hl) as S.
  rewrite size_Float64 in S.
  destruct (sorted_scores xs) as [_ F]. cbv zeta in F.
  pose proof (rows_take_perm df xs S) as P.
  pose proof (Permutation_length P) as PL.
  set (ps := argsort_desc xs) in *.
  exists (head 10 (take ps df)), (map (row_at df) (skipn 10 ps)).
  assert (R : rows (head 10 (take ps df)) = map (row_at df) (firstn 10 ps)).
  { rewrite rows_head, rows_take. apply firstn_map. }
  split; [unfold top_risk, sort_values_desc, getitem; rewrite Hl; reflexivity|].
  split; [|split].
  - rewrite rows_head, length_firstn, PL. reflexivity.
  - rewrite R, <- map_app, firstn_skipn, <- rows_take. exact P.
  - intros r s x y Hr Hs Hx Hy. rewrite R in Hr.
    apply in_map_iff in Hr. destruct Hr as (p & <- & Hp).
    apply in_map_iff in Hs. destruct Hs as (q & <- & Hq).
    rewrite (field_score_row_at df _ xs p Hl) in Hx.
    rewrite (field_score_row_at df _ xs q Hl) in Hy.
    injection Hx as <-. injection Hy as <-.
    apply precedes_false_iff.
    rewrite <- (firstn_skipn 10 ps), map_app in F.
    apply (ForallOrdPairs_app _ _ _ F).
    + exact (in_map (fun p => nth p xs nan) _ _ Hp).
    + exact (in_map (fun p => nth p xs nan) _ _ Hq).
Qed.

Lemma top_risk_greatest_witness :
  let df := engineered (borrowers
    [(of_Z 40, of_Z 3000, of_Z 10000, "Accra"%string);
     (of_Z 30, of_Z 5000, of_Z 2000, "Volta"%string)]) in
  exists top rest,
    top_risk df = Ok top /\
    List.length (rows top) = Nat.min 10 (List.length (rows df)) /\
    Permutation (rows top ++ rest) (rows df) /\
    (forall r s x y,
       In r (rows top) -> In s rest ->
       field "risk_score" (snd r) = Some (Num x) ->
       field "risk_score" (snd s) = Some (Num y) ->
       is_nan y = true \/ leb y x = true).
Proof.
  intros df.
  refine (top_risk_greatest df [lit_0_49; one] _ _).
  - apply (wf_feature_engineering (borrowers
      [(of_Z 40, of_Z 3000, of_Z 10000, "Accra"%string);
       (of_Z 30, of_Z 5000, of_Z 2000, "Volta"%string)])).
    + apply wf_borrowers.
    + reflexivity.
  - vm_compute. reflexivity.
Defined.

End Sorting.

(** ** The two review blocks *)

Section Review.

Lemma find_rows_of (idx : list nat) :
  forall (cols : list (string * list scalar)) (k l : nat),
    NoDup idx -> nth_error idx k = Some l ->
    find (fun r : row => Nat.eqb (fst r) l) (rows_of idx cols) =
    nth_error (rows_of idx cols) k.
Proof.
  induction idx as [|a idx IH]; intros cols k l Hn Hk.
  - destruct k; discriminate.
  - inversion Hn as [|? ? Ha Hn']. subst. destruct k as [|k]; simpl in *.
    + injection Hk as ->. rewrite Nat.eqb_refl. reflexivity.
    + destruct (Nat.eqb a l) eqn:E.
      * apply Nat.eqb_eq in E. subst a. exfalso. apply Ha.
        apply (nth_error_In _ _ Hk).
      * apply IH; assumption.
Qed.

(** Where the labels are distinct, [df.loc] of the label at a position
    is the row at that position. *)
Lemma loc_nth (df : DataFrame) (k : nat) :
  NoDup (index df) -> (k < List.length (index df))%nat ->
  loc df (nth k (index df) O) = Some (row_at df k).
Proof.
  intros Hn Hk. unfold loc, rows.
  rewrite (find_rows_of (index df) _ k); trivial.
  - apply (nth_error_rows df k Hk).
  - apply nth_error_nth', Hk.
Qed.

Lemma first_position_nth (idx : list nat) (k : nat) :
  NoDup idx -> (k < List.length idx)%nat ->
  first_position (nth k idx O) idx = Some k.
Proof.
  intros Hn Hk.
  destruct (first_position_In _ _ (nth_In idx O Hk)) as (p & Hp & E).
  rewrite Hp. f_equal. symmetry.
  apply (proj1 (NoDup_nth_error idx) Hn k p Hk).
  rewrite E. apply nth_error_nth', Hk.
Qed.

(** What a select box returns is the option at the position picked, or
    at the default position where none was picked. *)
Lemma selectbox_value_nth (options : list nat) (position : nat)
  (picked : option nat) :
  (position < List.length options)%nat ->
  exists k selected,
    St.selectbox_value options position picked = Some selected /\
    nth_error options k = Some selected /\
    (picked = None -> k = position) /\
    (forall p, picked = Some p -> (p < List.length options)%nat -> k = p).
Proof.
  intros H.
  destruct (nth_error options position) as [d|] eqn:Ed;
    [|apply nth_error_None in Ed; lia].
  unfold St.selectbox_value. destruct picked as [p|].
  - destruct (Nat.ltb p (List.length options)) eqn:E.
    + apply Nat.ltb_lt in E.
      destruct (nth_error options p) as [v|] eqn:Ev;
        [|apply nth_error_None in Ev; lia].
      exists p, v. repeat split; trivial; try discriminate.
      intros q [= ->] _. reflexivity.
    + apply Nat.ltb_ge in E. exists position, d.
      repeat split; trivial; try discriminate.
      intros q [= ->] Hq. lia.
  - exists position, d. repeat split; trivial. discriminate.
Qed.

(** The first of the sorted positions holds a greatest score. *)
Lemma argsort_desc_head (xs : list float64) (p0 : nat) (ps : list nat) :
  argsort_desc xs = p0 :: ps ->
  (p0 < List.length xs)%nat /\
  forall s, In s xs -> is_nan s = true \/ leb s (nth p0 xs nan) = true.
Proof.
  intros E. split.
  - apply argsort_desc_bound. rewrite E. simpl. auto.
  - destruct (sorted_scores xs) as [P F]. rewrite E in P, F.
    cbn [map] in P, F. inversion F as [|? ? Ha _]. subst.
    intros s Hs. apply (Permutation_in _ (Permutation_sym P)) in Hs.
    apply precedes_false_iff. destruct Hs as [<-|Hs].
    + apply precedes_irrefl.
    + rewrite Forall_forall in Ha. apply Ha, Hs.
Qed.

Lemma row_field_row_at (df : DataFrame) (name : string) (c : column)
  (k : nat) :
  lookup name (columns df) = Some c ->
  row_field (row_at df k) name = Ok (nth k (cells c) (Num nan)).
Proof.
  intros H. unfold row_field. rewrite field_row_at, H. reflexivity.
Qed.

Lemma cell_nth (df : DataFrame) (name : string) (c : column) (k : nat) :
  wf df -> lookup name (columns df) = Some c ->
  (k < List.length (index df))%nat ->
  cell df name k = Some (nth k (cells c) (Num nan)).
Proof.
  intros Hw H Hk. unfold cell. rewrite H. apply nth_error_nth'.
  pose proof (lookup_size _ _ _ Hw H) as S. unfold size in S. lia.
Qed.

Lemma In_firstn {A : Type} (n : nat) (l : list A) (x : A) :
  In x (firstn n l) -> In x l.
Proof.
  intros H. rewrite <- (firstn_skipn n l). apply in_or_app. auto.
Qed.

Lemma xs_not_nil (df : DataFrame) (xs : list float64) :
  List.length xs = List.length (index df) -> index df <> [] -> xs <> [].
Proof. destruct xs, (index df); simpl; congruence. Qed.

(** X13: on a table with rows and distinct labels, the "Loan Decision
    Recommendation" block raises nothing and reports a borrower of the
    table: the select box lists the labels of the table and opens on a
    borrower of greatest score; the message names the borrower at the
    position picked, or at the default position where none was picked,
    with the level and the score of that very row and the action that
    goes with the level. *)
Theorem recommendation_selector_reports_row (df : DataFrame)
  (picked : option nat) (xs : list float64) (levels : column) :
  wf df ->
  NoDup (index df) ->
  index df <> [] ->
  lookup "risk_score" (columns df) = Some (Float64 xs) ->
  lookup "risk_level" (columns df) = Some levels ->
  exists top k selected level score,
    recommendation_selector df picked =
      Ok [St.selectbox "Select borrower for review" (index df) top;
          St.info selected level (Num score) (recommend level)] /\
    nth_error (index df) k = Some selected /\
    cell df "risk_level" k = Some level /\
    cell df "risk_score" k = Some (Num score) /\
    (forall s, In s xs -> is_nan s = true \/ leb s (nth top xs nan) = true) /\
    (picked = None -> k = top) /\
    (forall p, picked = Some p -> (p < List.length (index df))%nat -> k = p).
Proof.
  intros Hw Hn Hi Hs Hl.
  pose proof (lookup_size _ _ _ Hw Hs) as S. rewrite size_Float64 in S.
  destruct (argsort_desc xs) as [|p0 ps] eqn:Ea;
    [exact (False_ind _ (argsort_desc_not_nil xs (xs_not_nil df xs S Hi) Ea))|].
  destruct (argsort_desc_head xs p0 ps Ea) as [B G].
  assert (B' : (p0 < List.length (index df))%nat) by lia.
  pose proof (first_position_nth (index df) p0 Hn B') as FP.
  pose proof (nth_In (index df) O B') as Ht.
  assert (E : default_review_position
                (index (head 5 (take (p0 :: ps) df))) (index df)
              = ([], Some p0)).
  { unfold default_review_position. cbn [head take index map firstn hd].
    rewrite (existsb_eqb_nat _ _ Ht), FP. reflexivity. }
  destruct (selectbox_value_nth (index df) p0 picked B')
    as (k & sel & Sv & Hk & K1 & K2).
  assert (Bk : (k < List.length (index df))%nat)
    by (apply nth_error_Some; congruence).
  assert (Es : sel = nth k (index df) O)
    by (symmetry; apply nth_error_nth with (1 := Hk)).
  pose proof (loc_nth df k Hn Bk) as L. rewrite <- Es in L.
  exists p0, k, sel, (nth k (cells levels) (Num nan)), (nth k xs nan).
  split; [|split; [exact Hk|split; [|split; [|auto]]]].
  - unfold recommendation_selector, sort_values_desc, getitem.
    rewrite Hs. cbn [bind numeric]. rewrite Ea, E.
    destruct (index df) as [|l idx] eqn:Hd; [congruence|].
    rewrite Sv, L.
    rewrite (row_field_row_at df _ _ k Hl), (row_field_row_at df _ _ k Hs).
    cbn [bind cells]. rewrite (map_nth Num). reflexivity.
  - apply (cell_nth df _ _ k Hw Hl Bk).
  - rewrite (cell_nth df _ _ k Hw Hs Bk). cbn [cells].
    rewrite (map_nth Num). reflexivity.
Qed.

Lemma recommendation_selector_reports_row_witness :
  let df := engineered (borrowers
    [(of_Z 40, of_Z 3000, of_Z 10000, "Accra"%string);
     (of_Z 30, of_Z 5000, of_Z 2000, "Volta"%string)]) in
  let xs := [lit_0_49; one] in
  exists top k selected level score,
    recommendation_selector df None =
      Ok [St.selectbox "Select borrower for review" (index df) top;
          St.info selected level (Num score) (recommend level)] /\
    nth_error (index df) k = Some selected /\
    cell df "risk_level" k = Some level /\
    cell df "risk_score" k = Some (Num score) /\
    (forall s, In s xs -> is_nan s = true \/ leb s (nth top xs nan) = true) /\
    (@None nat = None -> k = top) /\
    (forall p, @None nat = Some p -> (p < List.length (index df))%nat -> k = p).
Proof.
  intros df xs.
  refine (recommendation_selector_reports_row df None xs
            (Category [Some "Medium"; Some "High"]%string) _ _ _ _ _).
  - apply (wf_feature_engineering (borrowers
      [(of_Z 40, of_Z 3000, of_Z 10000, "Accra"%string);
       (of_Z 30, of_Z 5000, of_Z 2000, "Volta"%string)])).
    + apply wf_borrowers.
    + reflexivity.
  - vm_compute. repeat constructor; simpl; intuition discriminate.
  - vm_compute. discriminate.
  - vm_compute. reflexivity.
  - vm_compute. reflexivity.
Defined.

(** X14: on a table with rows and distinct labels, the "Top 10" block
    raises nothing: its select box offers the labels of the top table
    and opens on a borrower of greatest score, and the level and the
    action it writes are those of the row of the table that carries the
    chosen label. *)
Theorem top_risk_review_reports_row (df : DataFrame)
  (picked : option nat) (xs : list float64) (levels : column) :
  wf df ->
  NoDup (index df) ->
  index df <> [] ->
  lookup "risk_score" (columns df) = Some (Float64 xs) ->
  lookup "risk_level" (columns df) = Some levels ->
  exists top k selected level score,
    top_risk df = Ok top /\
    top_risk_review df picked = Ok (selected, level, recommend level) /\
    In selected (index top) /\
    nth_error (index df) k = Some selected /\
    cell df "risk_level" k = Some level /\
    cell df "risk_score" k = Some (Num score) /\
    (picked = None ->
     forall s, In s xs -> is_nan s = true \/ leb s score = true).
Proof.
  intros Hw Hn Hi Hs Hl.
  pose proof (lookup_size _ _ _ Hw Hs) as S. rewrite size_Float64 in S.
  destruct (argsort_desc xs) as [|p0 ps] eqn:Ea;
    [exact (False_ind _ (argsort_desc_not_nil xs (xs_not_nil df xs S Hi) Ea))|].
  destruct (argsort_desc_head xs p0 ps Ea) as [B G].
  set (options := index (head 10 (take (p0 :: ps) df))).
  assert (Eo : options =
               map (fun p => nth p (index df) O) (firstn 10 (p0 :: ps))).
  { unfold options, head, take. cbn [index]. apply firstn_map. }
  assert (B0 : (0 < List.length options)%nat)
    by (rewrite Eo; simpl; lia).
  destruct (selectbox_value_nth options O picked B0)
    as (j & sel & Sv & Hj & J1 & _).
  pose proof Hj as Hj'. rewrite Eo, nth_error_map in Hj'.
  destruct (nth_error (firstn 10 (p0 :: ps)) j) as [k|] eqn:Ek;
    [|discriminate].
  simpl in Hj'. injection Hj' as Es.
  assert (Bk : (k < List.length (index df))%nat).
  { rewrite <- S. apply argsort_desc_bound. rewrite Ea.
    apply (In_firstn 10). apply (nth_error_In _ _ Ek). }
  pose proof (loc_nth df k Hn Bk) as L. rewrite Es in L.
  exists (head 10 (take (p0 :: ps) df)), k, sel,
    (nth k (cells levels) (Num nan)), (nth k xs nan).
  split; [|split; [|split; [|split; [|split; [|split]]]]].
  - unfold top_risk, sort_values_desc, getitem. rewrite Hs.
    cbn [bind numeric]. rewrite Ea. reflexivity.
  - unfold top_risk_review, top_risk, sort_values_desc, getitem.
    rewrite Hs. cbn [bind numeric]. rewrite Ea. fold options.
    rewrite Sv, L, (row_field_row_at df _ _ k Hl). reflexivity.
  - apply (nth_error_In _ _ Hj).
  - rewrite <- Es. apply nth_error_nth', Bk.
  - apply (cell_nth df _ _ k Hw Hl Bk).
  - rewrite (cell_nth df _ _ k Hw Hs Bk). cbn [cells].
    rewrite (map_nth Num). reflexivity.
  - intros Hp. rewrite (J1 Hp) in Ek. simpl in Ek. injection Ek as <-.
    exact G.
Qed.

Lemma top_risk_review_reports_row_witness :
  let df := engineered (borrowers
    [(of_Z 40, of_Z 3000, of_Z 10000, "Accra"%string);
     (of_Z 30, of_Z 5000, of_Z 2000, "Volta"%string)]) in
  let xs := [lit_0_49; one] in
  exists top k selected level score,
    top_risk df = Ok top /\
    top_risk_review df None = Ok (selected, level, recommend level) /\
    In selected (index top) /\
    nth_error (index df) k = Some selected /\
    cell df "risk_level" k = Some level /\
    cell df "risk_score" k = Some (Num score) /\
    (@None nat = None ->
     forall s, In s xs -> is_nan s = true \/ leb s score = true).
Proof.
  intros df xs.
  refine (top_risk_review_reports_row df None xs
            (Category [Some "Medium"; Some "High"]%string) _ _ _ _ _).
  - apply (wf_feature_engineering (borrowers
      [(of_Z 40, of_Z 3000, of_Z 10000, "Accra"%string);
       (of_Z 30, of_Z 5000, of_Z 2000, "Volta"%string)])).
    + apply wf_borrowers.
    + reflexivity.
  - vm_compute. repeat constructor; simpl; intuition discriminate.
  - vm_compute. discriminate.
  - vm_compute. reflexivity.
  - vm_compute. reflexivity.
Defined.

End Review.

(** ** The order of the columns *)

Section ColumnOrder.

Lemma assign_column_names (name : string) (c : column)
  (cols : list (string * column)) :
  map fst (assign name c cols) =
  map fst cols ++
  (if existsb (String.eqb name) (map fst cols) then [] else [name]).
Proof.
  induction cols as [|[n c'] cols IH]; simpl; [reflexivity|].
  rewrite (String.eqb_sym name n).
  destruct (String.eqb n name); simpl.
  - rewrite app_nil_r. reflexivity.
  - rewrite IH. reflexivity.
Qed.

Lemma existsb_names_snoc (n m : string) (l : list string) (b : bool) :
  String.eqb n m = false ->
  existsb (String.eqb n) (l ++ (if b then [] else [m])) =
  existsb (String.eqb n) l.
Proof.
  intros H. rewrite existsb_app.
  destruct b; simpl; rewrite ?H; apply orb_false_r.
Qed.

(** X15: the feature engineering keeps the columns of the file in their
    order and appends the derived columns that the file did not have, in
    the order ratio, score, level; a column of the file that bears the
    name of a derived one is overwritten where it stands, so no name
    comes twice that did not before. *)
Theorem derived_columns_order (df df' : DataFrame) :
  feature_engineering df = Ok df' ->
  column_names df' =
    column_names df ++
    filter (fun n => negb (existsb (String.eqb n) (column_names df)))
      derived_names /\
  (NoDup (column_names df) -> NoDup (column_names df')).
Proof.
  intros H.
  destruct (feature_engineering_inv _ _ H) as (incs & ls & ags & _ & _ & _ & ->).
  assert (E : column_names (derived df incs ls ags) =
              column_names df ++
              filter (fun n => negb (existsb (String.eqb n) (column_names df)))
                derived_names).
  { unfold column_names, derived, setitem. cbn [columns].
    rewrite (assign_column_names "risk_level"),
      (assign_column_names "risk_score"),
      (assign_column_names "income_to_loan_ratio").
    rewrite (existsb_names_snoc "risk_level" "risk_score") by reflexivity.
    rewrite !(existsb_names_snoc _ "income_to_loan_ratio") by reflexivity.
    unfold derived_names. cbn [filter].
    destruct (existsb (String.eqb "income_to_loan_ratio") (map fst (columns df)));
    destruct (existsb (String.eqb "risk_score") (map fst (columns df)));
    destruct (existsb (String.eqb "risk_level") (map fst (columns df)));
    cbn [negb]; rewrite ?app_nil_r, <- ?app_assoc; reflexivity. }
  split; [exact E|]. intros Hn. rewrite E.
  apply NoDup_app; [exact Hn| |].
  - apply NoDup_filter. unfold derived_names.
    repeat (constructor; [simpl; intros K;
      repeat (destruct K as [K|K]; [discriminate K|]); exact K|]).
    constructor.
  - intros n Hin Hf. apply filter_In in Hf. destruct Hf as [_ Hf].
    apply negb_true_iff in Hf.
    assert (T : existsb (String.eqb n) (column_names df) = true)
      by (apply existsb_eqb_In, Hin).
    congruence.
Qed.

Lemma derived_columns_order_witness :
  let df := borrowers [(of_Z 40, of_Z 3000, of_Z 10000, "Accra"%string)] in
  column_names (engineered df) =
    column_names df ++
    filter (fun n => negb (existsb (String.eqb n) (column_names df)))
      derived_names /\
  (NoDup (column_names df) -> NoDup (column_names (engineered df))).
Proof.
  intros df. exact (derived_columns_order df (engineered df) eq_refl).
Defined.

End ColumnOrder.
